(** * Session booking and rating workflow of the folk-art platform

    A shallow embedding of the sessions router (the second router of
    [routes/artists.js] in the source tree, mounted at [/api/sessions]), of
    the schemas in [models/Session.js] and [models/Artist.js], and of the
    parts of the JavaScript runtime and of the object-document mapper that
    the handlers rely on.

    Modelling conventions.
    - A JavaScript number is a rational, [NaN] or an infinity: arithmetic is
      exact, the rounding of IEEE doubles and the sign of zero are not
      modelled. Strings are ASCII. A request value is [undefined], [null],
      a boolean, a number, a string or a plain object; arrays are left out.
    - A collection is a finite map from [_id] to document; its order is the
      order of the keys. Dates are milliseconds since the epoch.
    - A handler is a state-and-exception computation over the store; every
      awaited store operation can throw, and the handler's [try/catch]
      turns a throw into the 500 reply. Nothing is rolled back.
    - Casting and validation are modelled for the paths that a route
      assigns; what is stored is taken to satisfy its schema otherwise.
      [populate] is a read-side join and is left out of the replies.
    - The [protect] middleware is outside the source tree: the
      authenticated caller is a parameter of every handler. *)

From Stdlib Require Import QArith Qcanon Qround Lqa Ascii String.
From stdpp Require Import gmap strings list fin_maps sorting numbers.

Open Scope Z_scope.

(** ** JavaScript numbers *)

Module Js.

Inductive number :=
  | NaN
  | Inf (negative : bool)
  | Fin (q : Qc).

#[global] Instance number_eq_dec : EqDecision number.
Proof. solve_decision. Defined.

Definition ofZ (z : Z) : number := Fin (Q2Qc (inject_Z z)).

(** [Number::lessThan]: [None] is the specification's [undefined]. *)
Definition lessThan (x y : number) : option bool :=
  match x, y with
  | NaN, _ | _, NaN => None
  | Fin a, Fin b => Some (bool_decide (a < b)%Qc)
  | Inf true, Inf true => Some false
  | Inf true, _ => Some true
  | _, Inf true => Some false
  | Inf false, _ => Some false
  | Fin _, Inf false => Some true
  end.

(** [x / y] on numbers; the sign of a zero divisor is not tracked, the
    handlers only divide by an array length. *)
Definition div (x y : number) : number :=
  match x, y with
  | NaN, _ | _, NaN => NaN
  | Inf _, Inf _ => NaN
  | Inf s, Fin b => Inf (xorb s (bool_decide (b < 0)%Qc))
  | Fin _, Inf _ => Fin 0%Qc
  | Fin a, Fin b =>
      if bool_decide (b = 0%Qc)
      then (if bool_decide (a = 0%Qc) then NaN else Inf (bool_decide (a < 0)%Qc))
      else Fin (a / b)%Qc
  end.

Definition mul (x y : number) : number :=
  match x, y with
  | NaN, _ | _, NaN => NaN
  | Inf s, Inf t => Inf (xorb s t)
  | Inf s, Fin b | Fin b, Inf s =>
      if bool_decide (b = 0%Qc) then NaN else Inf (xorb s (bool_decide (b < 0)%Qc))
  | Fin a, Fin b => Fin (a * b)%Qc
  end.

(** [Math.round]: the integer nearest to [x], ties towards plus infinity. *)
Definition Math_round (x : number) : number :=
  match x with
  | Fin a => ofZ (Qfloor (a + Q2Qc (1 # 2))%Qc)
  | _ => x
  end.

(** ** JavaScript values, as far as a JSON body can carry them *)

Inductive value :=
  | Undefined                 (* the property is absent *)
  | Null
  | Bool (b : bool)
  | Num (n : number)
  | Str (s : string)
  | Obj.                      (* an object literal without own [valueOf]/[toString] *)

(** *** [StringToNumber] on ASCII strings *)

Definition isWhiteSpace (c : ascii) : bool :=
  match nat_of_ascii c with
  | 9%nat | 10%nat | 11%nat | 12%nat | 13%nat | 32%nat => true
  | _ => false
  end.

Fixpoint skipWhiteSpace (l : list ascii) : list ascii :=
  match l with
  | c :: l' => if isWhiteSpace c then skipWhiteSpace l' else l
  | [] => []
  end.

Definition trim (l : list ascii) : list ascii :=
  reverse (skipWhiteSpace (reverse (skipWhiteSpace l))).

Definition digitValue (c : ascii) : option Z :=
  let n := Z.of_nat (nat_of_ascii c) in
  if (48 <=? n) && (n <=? 57) then Some (n - 48)
  else if (97 <=? n) && (n <=? 102) then Some (n - 87)
  else if (65 <=? n) && (n <=? 70) then Some (n - 55)
  else None.

Definition digitIn (base : Z) (c : ascii) : option Z :=
  match digitValue c with
  | Some d => if d <? base then Some d else None
  | None => None
  end.

(** The longest prefix of digits of [base]: its value, its length and the
    rest of the input. *)
Fixpoint readDigits (base : Z) (l : list ascii) (acc : Z) (n : nat)
  : Z * nat * list ascii :=
  match l with
  | c :: l' =>
      match digitIn base c with
      | Some d => readDigits base l' (acc * base + d) (S n)
      | None => (acc, n, l)
      end
  | [] => (acc, n, [])
  end.

Definition pow10 (e : Z) : Qc :=
  if 0 <=? e then Q2Qc (inject_Z (10 ^ e))
  else (/ Q2Qc (inject_Z (10 ^ (- e))))%Qc.

(** [ExponentPart], optional, read up to the end of the input. *)
Definition readExponent (l : list ascii) : option Z :=
  match l with
  | [] => Some 0
  | c :: l' =>
      if bool_decide (c = "e"%char) || bool_decide (c = "E"%char) then
        let '(neg, ds) :=
          match l' with
          | "-"%char :: r => (true, r)
          | "+"%char :: r => (false, r)
          | _ => (false, l')
          end in
        match readDigits 10 ds 0 0 with
        | (v, S _, []) => Some (if neg : bool then - v else v)
        | _ => None
        end
      else None
  end.

(** [StrUnsignedDecimalLiteral]. *)
Definition unsignedDecimal (l : list ascii) : option number :=
  if bool_decide (l = list_ascii_of_string "Infinity") then Some (Inf false)
  else
    let '(ip, ni, r1) := readDigits 10 l 0 0 in
    let '(fp, nf, r2) :=
      match r1 with
      | "."%char :: r => readDigits 10 r 0 0
      | _ => (0, 0%nat, r1)
      end in
    if (ni + nf =? 0)%nat then None
    else
      match readExponent r2 with
      | Some e =>
          Some (Fin (Q2Qc (inject_Z (ip * 10 ^ Z.of_nat nf + fp))
                     * pow10 (e - Z.of_nat nf))%Qc)
      | None => None
      end.

(** [NonDecimalIntegerLiteral]: binary, octal and hexadecimal. *)
Definition nonDecimal (l : list ascii) : option number :=
  match l with
  | "0"%char :: p :: ds =>
      let base :=
        if bool_decide (p = "b"%char) || bool_decide (p = "B"%char) then Some 2
        else if bool_decide (p = "o"%char) || bool_decide (p = "O"%char) then Some 8
        else if bool_decide (p = "x"%char) || bool_decide (p = "X"%char) then Some 16
        else None in
      match base with
      | Some b =>
          match readDigits b ds 0 0 with
          | (v, S _, []) => Some (ofZ v)
          | _ => None
          end
      | None => None
      end
  | _ => None
  end.

Definition negate (x : number) : number :=
  match x with
  | NaN => NaN
  | Inf s => Inf (negb s)
  | Fin a => Fin (- a)%Qc
  end.

Definition StringToNumber (s : string) : number :=
  match trim (list_ascii_of_string s) with
  | [] => ofZ 0
  | "+"%char :: r => default NaN (unsignedDecimal r)
  | "-"%char :: r => default NaN (negate <$> unsignedDecimal r)
  | l =>
      match unsignedDecimal l with
      | Some n => n
      | None => default NaN (nonDecimal l)
      end
  end.

(** *** Conversions and the relational operators *)

(** [ToPrimitive] with hint number: an ordinary object ends in its
    [toString]. *)
Definition ToPrimitive (v : value) : value :=
  match v with
  | Obj => Str "[object Object]"
  | _ => v
  end.

Definition ToNumber (v : value) : number :=
  match ToPrimitive v with
  | Undefined => NaN
  | Null => ofZ 0
  | Bool b => ofZ (if b then 1 else 0)
  | Num n => n
  | Str s => StringToNumber s
  | Obj => NaN
  end.

(** [IsLessThan]: two strings are compared by code units, anything else
    numerically. *)
Definition IsLessThan (x y : value) : option bool :=
  match ToPrimitive x, ToPrimitive y with
  | Str a, Str b => Some (String.ltb a b)
  | px, py => lessThan (ToNumber px) (ToNumber py)
  end.

(** [x < y] and [x > y]: an undefined comparison is false. *)
Definition lt (x y : value) : bool := default false (IsLessThan x y).
Definition gt (x y : value) : bool := default false (IsLessThan y x).

Definition lit (z : Z) : value := Num (ofZ z).

End Js.

(** ** Documents *)

Abbreviation ObjectId := N.

(** [models/Session.js] *)
Module Session.

Inductive SessionType := lesson | workshop | consultation | performance.
Inductive Format := online | in_person | hybrid.
Inductive Status := pending | confirmed | completed | cancelled | rescheduled.
Inductive PaymentStatus := pay_pending | paid | refunded | failed.

#[global] Instance Status_eq_dec : EqDecision Status.
Proof. solve_decision. Defined.
#[global] Instance PaymentStatus_eq_dec : EqDecision PaymentStatus.
Proof. solve_decision. Defined.

Definition SessionType_enum : list (string * SessionType) :=
  [("lesson", lesson); ("workshop", workshop);
   ("consultation", consultation); ("performance", performance)].
Definition Format_enum : list (string * Format) :=
  [("online", online); ("in-person", in_person); ("hybrid", hybrid)].
Definition Status_enum : list (string * Status) :=
  [("pending", pending); ("confirmed", confirmed); ("completed", completed);
   ("cancelled", cancelled); ("rescheduled", rescheduled)].
Definition PaymentStatus_enum : list (string * PaymentStatus) :=
  [("pending", pay_pending); ("paid", paid); ("refunded", refunded);
   ("failed", failed)].

(** The member of an enum that a string names. *)
Fixpoint enum_lookup {A} (e : list (string * A)) (s : string) : option A :=
  match e with
  | (n, a) :: e' => if bool_decide (n = s) then Some a else enum_lookup e' s
  | [] => None
  end.

Definition Status_name (st : Status) : string :=
  match st with
  | pending => "pending"
  | confirmed => "confirmed"
  | completed => "completed"
  | cancelled => "cancelled"
  | rescheduled => "rescheduled"
  end.

Record Location := {
  address : option string;
  city : option string;
  state : option string
}.

(** The nested path [rating]; each leaf may be absent. *)
Record Rating := {
  score : option Qc;
  review : option string;
  ratedAt : option Z
}.

Definition no_rating : Rating :=
  {| score := None; review := None; ratedAt := None |}.

(** A stored session. Dates are milliseconds since the epoch, [duration] is
    in whole minutes. The paths that no session route writes ([meetingLink],
    [paymentId], [notes], [materials], [prerequisites], the participant
    counters) are left out. *)
Record t := {
  user : ObjectId;
  artist : ObjectId;
  sessionType : SessionType;
  title : string;
  description : option string;
  scheduledDate : Z;
  duration : Z;
  format : Format;
  location : option Location;
  amount : Qc;
  currency : string;
  status : Status;
  paymentStatus : PaymentStatus;
  rating : Rating;
  createdAt : Z;
  updatedAt : Z
}.

(** The object literal handed to [Session.create], which is also what a
    request body can carry: every path is optional and still unvalidated. *)
Record fields := {
  f_user : option ObjectId;
  f_artist : option ObjectId;
  f_sessionType : option string;
  f_title : option string;
  f_description : option string;
  f_scheduledDate : option Z;
  f_duration : option Z;
  f_format : option string;
  f_location : option Location;
  f_amount : option Qc;
  f_currency : option string;
  f_status : option string;
  f_paymentStatus : option string;
  f_score : Js.value;
  f_review : option string
}.

(** *** Schema casting and validation *)

(** The schema type Number: [undefined], [null] and the empty string cast
    to no value, a string or a boolean through [Number(val)], and [NaN] or
    an object is a cast error. The result is [None] on a cast error and
    [Some None] when nothing is to be stored. A stored [null] is not told
    apart from an absent path. *)
Definition castNumber (v : Js.value) : option (option Js.number) :=
  match v with
  | Js.Undefined | Js.Null => Some None
  | Js.Str EmptyString => Some None
  | Js.Str _ | Js.Bool _ | Js.Num _ =>
      match Js.ToNumber v with
      | Js.NaN => None
      | n => Some (Some n)
      end
  | Js.Obj => None
  end.

(** The validators [min] and [max] of a Number path. *)
Definition inRange (lo hi : Z) (n : Js.number) : option Qc :=
  match n with
  | Js.Fin q =>
      if bool_decide (Q2Qc (inject_Z lo) <= q)%Qc
         && bool_decide (q <= Q2Qc (inject_Z hi))%Qc
      then Some q else None
  | _ => None
  end.

(** [rating.score]: type Number, min 1, max 5. *)
Definition validate_score (v : Js.value) : option (option Qc) :=
  match castNumber v with
  | None => None
  | Some None => Some None
  | Some (Some n) => Some <$> inRange 1 5 n
  end.

(** A path with an enum and a default. *)
Definition enum_default {A} (e : list (string * A)) (d : A) (v : option string)
  : option A :=
  match v with
  | None => Some d
  | Some s => enum_lookup e s
  end.

(** A required String path: present and not empty. *)
Definition required_string (v : option string) : option string :=
  match v with
  | Some EmptyString | None => None
  | Some s => Some s
  end.

(** The document that [new Session(fields)] validates to at time [now], or
    [None] when a validator fails. *)
Definition build (now : Z) (f : fields) : option t :=
  u ← f_user f;
  a ← f_artist f;
  ty ← required_string (f_sessionType f) ≫= enum_lookup SessionType_enum;
  ti ← required_string (f_title f);
  _ ← guard (default 0%nat (String.length <$> f_description f) ≤ 500)%nat;
  sd ← f_scheduledDate f;
  du ← f_duration f;
  fo ← required_string (f_format f) ≫= enum_lookup Format_enum;
  am ← f_amount f;
  st ← enum_default Status_enum pending (f_status f);
  ps ← enum_default PaymentStatus_enum pay_pending (f_paymentStatus f);
  sc ← validate_score (f_score f);
  Some {| user := u; artist := a; sessionType := ty; title := ti;
          description := f_description f; scheduledDate := sd; duration := du;
          format := fo; location := f_location f; amount := am;
          currency := default "INR" (f_currency f);
          status := st; paymentStatus := ps;
          rating := {| score := sc; review := f_review f; ratedAt := None |};
          createdAt := now; updatedAt := now |}.

Definition with_status (s : t) (st : Status) : t :=
  {| user := user s; artist := artist s; sessionType := sessionType s;
     title := title s; description := description s;
     scheduledDate := scheduledDate s; duration := duration s;
     format := format s; location := location s; amount := amount s;
     currency := currency s; status := st; paymentStatus := paymentStatus s;
     rating := rating s; createdAt := createdAt s; updatedAt := updatedAt s |}.

Definition with_rating (s : t) (r : Rating) : t :=
  {| user := user s; artist := artist s; sessionType := sessionType s;
     title := title s; description := description s;
     scheduledDate := scheduledDate s; duration := duration s;
     format := format s; location := location s; amount := amount s;
     currency := currency s; status := status s; paymentStatus := paymentStatus s;
     rating := r; createdAt := createdAt s; updatedAt := updatedAt s |}.

(** [session.status = v], as the schema accepts it on save. *)
Definition set_status (s : t) (v : string) : option t :=
  st ← enum_lookup Status_enum v;
  Some (with_status s st).

(** [session.rating = { score, review, ratedAt: new Date() }], as the
    schema accepts it on save. *)
Definition set_rating (s : t) (sc : Js.value) (rv : option string) (now : Z)
  : option t :=
  q ← validate_score sc;
  Some (with_rating s {| score := q; review := rv; ratedAt := Some now |}).

(** The [pre('save')] hook: [this.updatedAt = Date.now()]. *)
Definition pre_save (now : Z) (s : t) : t :=
  {| user := user s; artist := artist s; sessionType := sessionType s;
     title := title s; description := description s;
     scheduledDate := scheduledDate s; duration := duration s;
     format := format s; location := location s; amount := amount s;
     currency := currency s; status := status s; paymentStatus := paymentStatus s;
     rating := rating s; createdAt := createdAt s; updatedAt := now |}.

End Session.

(** [models/Artist.js], the paths that the session routes read or write. *)
Module Artist.

Record t := {
  user : ObjectId;
  sessionRate : Qc;
  ratings_average : Qc;
  ratings_count : nat;
  isActive : bool
}.

(** [artist.ratings.average = x; artist.ratings.count = n], as the schema
    accepts it on save: [ratings.average] is a Number with min 0 and max
    5. *)
Definition set_ratings (a : t) (x : Js.number) (n : nat) : option t :=
  q ← Session.inRange 0 5 x;
  Some {| user := user a; sessionRate := sessionRate a;
          ratings_average := q; ratings_count := n; isActive := isActive a |}.

End Artist.

Record Store := {
  artists : gmap N Artist.t;
  sessions : gmap N Session.t
}.

(** ** Requests, replies and the handler monad *)

(** [req.user], as the [protect] middleware leaves it. *)
Inductive Role := role_user | role_artist | role_admin.

#[global] Instance Role_eq_dec : EqDecision Role.
Proof. solve_decision. Defined.

Record Caller := {
  id : ObjectId;
  role : Role
}.

Inductive Payload :=
  | NoData
  | OneSession (doc : option (ObjectId * Session.t))
  | Page (count total totalPages currentPage : nat)
         (docs : list (ObjectId * Session.t)).

(** [res.status(code).json({ success, message, ... })] *)
Record Response := {
  code : N;
  success : bool;
  message : option string;
  data : Payload
}.

Definition failure (c : N) (m : string) : Response :=
  {| code := c; success := false; message := Some m; data := NoData |}.

Definition ServerError : Response := failure 500 "Server error".

(** A step of a handler either goes on with a value, has sent the reply
    (the handler returned), or threw. *)
Inductive outcome (A : Type) :=
  | Next (a : A)
  | Sent (r : Response)
  | Threw.
Arguments Next {A} a.
Arguments Sent {A} r.
Arguments Threw {A}.

(** The state of a running request: the store, and how many store
    operations succeed before the store fails ([None]: it never does). *)
Definition State : Type := Store * option nat.

Definition Handler (A : Type) : Type := State -> outcome A * State.

Definition ret {A} (a : A) : Handler A := fun s => (Next a, s).

Definition bind {A B} (m : Handler A) (k : A -> Handler B) : Handler B :=
  fun s =>
    match m s with
    | (Next a, s') => k a s'
    | (Sent r, s') => (Sent r, s')
    | (Threw, s') => (Threw, s')
    end.

Declare Scope handler_scope.
Delimit Scope handler_scope with handler.
Notation "x <- m ;; k" := (bind m (fun x => k))
  (at level 100, m at next level, right associativity) : handler_scope.
Notation "m ;; k" := (bind m (fun _ => k))
  (at level 100, right associativity) : handler_scope.
Open Scope handler_scope.

Definition send {A} (r : Response) : Handler A := fun s => (Sent r, s).
Definition throw {A} : Handler A := fun s => (Threw, s).
Definition get : Handler Store := fun s => (Next (fst s), s).
Definition put (st : Store) : Handler unit := fun s => (Next tt, (st, snd s)).

(** A value that a validator or a cast may refuse. *)
Definition orThrow {A} (v : option A) : Handler A :=
  match v with
  | Some a => ret a
  | None => throw
  end.

(** One round trip to the store. *)
Definition io : Handler unit :=
  fun s =>
    match snd s with
    | Some O => (Threw, s)
    | Some (S n) => (Next tt, (fst s, Some n))
    | None => (Next tt, s)
    end.

(** [try { ... } catch (error) { res.status(500).json(...) }]: the reply of
    the handler and the store it leaves. *)
Definition run (h : Handler Response) (faults : option nat) (st : Store)
  : Response * Store :=
  match h (st, faults) with
  | (Next r, s) | (Sent r, s) => (r, fst s)
  | (Threw, s) => (ServerError, fst s)
  end.

(** ** The model layer: queries and writes *)

(** A filter over the sessions collection; an absent condition matches
    every document ([{}] is [any]). *)
Record SessionQuery := {
  q_user : option ObjectId;
  q_artist : option ObjectId;
  q_status : option (list string);     (* [status: s] or [status: { $in }] *)
  q_date_gte : option Z;               (* [scheduledDate: { $gte }] *)
  q_date_lt : option Z;                (* [scheduledDate: { $lt }] *)
  q_rated : bool                       (* ['rating.score': { $exists: true }] *)
}.

Definition any : SessionQuery :=
  {| q_user := None; q_artist := None; q_status := None;
     q_date_gte := None; q_date_lt := None; q_rated := false |}.

Definition holds {A} (c : option A) (p : A -> bool) : bool :=
  match c with
  | Some x => p x
  | None => true
  end.

Definition matches (q : SessionQuery) (s : Session.t) : bool :=
  holds (q_user q) (fun u => bool_decide (Session.user s = u))
  && holds (q_artist q) (fun a => bool_decide (Session.artist s = a))
  && holds (q_status q)
       (fun l => bool_decide (Session.Status_name (Session.status s) ∈ l))
  && holds (q_date_gte q) (fun d => d <=? Session.scheduledDate s)
  && holds (q_date_lt q) (fun d => Session.scheduledDate s <? d)
  && (negb (q_rated q) || bool_decide (is_Some (Session.score (Session.rating s)))).

Definition select (q : SessionQuery) (m : gmap N Session.t)
  : list (ObjectId * Session.t) :=
  filter (fun d => matches q (snd d)) (map_to_list m).

Definition Session_find (q : SessionQuery) : Handler (list (ObjectId * Session.t)) :=
  io ;; st <- get ;; ret (select q (sessions st)).

Definition Session_findOne (q : SessionQuery) : Handler (option (ObjectId * Session.t)) :=
  io ;; st <- get ;; ret (head (select q (sessions st))).

Definition Session_countDocuments (q : SessionQuery) : Handler nat :=
  io ;; st <- get ;; ret (length (select q (sessions st))).

Definition Session_findById (i : ObjectId) : Handler (option Session.t) :=
  io ;; st <- get ;; ret (sessions st !! i).

Definition with_sessions (st : Store) (m : gmap N Session.t) : Store :=
  {| artists := artists st; sessions := m |}.

Definition with_artists (st : Store) (m : gmap N Artist.t) : Store :=
  {| artists := m; sessions := sessions st |}.

(** [Session.create(fields)]: validate, take a new [_id], insert. *)
Definition Session_create (now : Z) (f : Session.fields)
  : Handler (ObjectId * Session.t) :=
  doc <- orThrow (Session.build now f) ;;
  io ;;
  st <- get ;;
  let i := fresh (dom (sessions st)) in
  put (with_sessions st (<[i := doc]> (sessions st))) ;;
  ret (i, doc).

(** [session.save()] on a loaded document whose modified paths validated to
    [doc] ([None]: a validator refused one). *)
Definition Session_save (now : Z) (i : ObjectId) (doc : option Session.t)
  : Handler Session.t :=
  d <- orThrow doc ;;
  io ;;
  st <- get ;;
  let d' := Session.pre_save now d in
  put (with_sessions st (<[i := d']> (sessions st))) ;;
  ret d'.

Definition Artist_findById (i : ObjectId) : Handler (option Artist.t) :=
  io ;; st <- get ;; ret (artists st !! i).

(** The first profile of a user, in the order of the collection. *)
Definition profileOf (st : Store) (u : ObjectId) : option (ObjectId * Artist.t) :=
  head (filter (fun d => Artist.user (snd d) = u) (map_to_list (artists st))).

(** [Artist.findOne({ user })] *)
Definition Artist_findOne (u : ObjectId) : Handler (option (ObjectId * Artist.t)) :=
  io ;; st <- get ;; ret (profileOf st u).

Definition Artist_save (i : ObjectId) (doc : option Artist.t) : Handler unit :=
  d <- orThrow doc ;;
  io ;;
  st <- get ;;
  put (with_artists st (<[i := d]> (artists st))).

(** ** The session routes *)

(** The query string of [GET /api/sessions]; [page] and [limit] are the
    positive integers that the client's pagination sends. *)
Record ListQuery := {
  l_status : option string;
  l_upcoming : option string;
  l_page : option positive;
  l_limit : option positive
}.

Definition truthy (v : option string) : bool :=
  match v with
  | Some EmptyString | None => false
  | Some _ => true
  end.

(** [.sort({ scheduledDate: 1 })] *)
Definition byDate (a b : ObjectId * Session.t) : Prop :=
  Session.scheduledDate (snd a) <= Session.scheduledDate (snd b).

#[local] Instance byDate_dec a b : Decision (byDate a b).
Proof. unfold byDate. apply _. Defined.

(** [Math.ceil(total / limit)] *)
Definition ceilDiv (total limit : nat) : nat :=
  ((total + limit - 1) / limit)%nat.

(** The filter that [GET /api/sessions] builds for a caller. *)
Definition listQuery (caller : Caller) (now : Z) (rq : ListQuery)
  : Handler SessionQuery :=
  query <-
    (match role caller with
     | role_artist =>
         artist <- Artist_findOne (id caller) ;;
         match artist with
         | Some (aid, _) =>
             ret {| q_user := None; q_artist := Some aid; q_status := None;
                    q_date_gte := None; q_date_lt := None; q_rated := false |}
         | None => ret any
         end
     | _ =>
         ret {| q_user := Some (id caller); q_artist := None; q_status := None;
                q_date_gte := None; q_date_lt := None; q_rated := false |}
     end) ;;
  let query :=
    if truthy (l_status rq)
    then {| q_user := q_user query; q_artist := q_artist query;
            q_status := (fun s => [s]) <$> l_status rq;
            q_date_gte := q_date_gte query; q_date_lt := q_date_lt query;
            q_rated := q_rated query |}
    else query in
  let query :=
    if bool_decide (l_upcoming rq = Some "true")
    then {| q_user := q_user query; q_artist := q_artist query;
            q_status := q_status query;
            q_date_gte := Some now; q_date_lt := q_date_lt query;
            q_rated := q_rated query |}
    else query in
  ret query.

(** [GET /api/sessions] *)
Definition getSessions (caller : Caller) (now : Z) (rq : ListQuery)
  : Handler Response :=
  let page := Pos.to_nat (default 1%positive (l_page rq)) in
  let limit := Pos.to_nat (default 10%positive (l_limit rq)) in
  query <- listQuery caller now rq ;;
  found <- Session_find query ;;
  let sessions := take limit (drop ((page - 1) * limit) (merge_sort byDate found)) in
  total <- Session_countDocuments query ;;
  send {| code := 200; success := true; message := None;
          data := Page (length sessions) total (ceilDiv total limit) page sessions |}.

(** The body of [POST /api/sessions]: the artist and whatever session paths
    the client sends, read or not. *)
Record BookBody := {
  artistId : ObjectId;
  sent : Session.fields
}.

(** The window [[scheduledDate, scheduledDate + duration * 60000)] of a
    request, when both are given; without them the dates of the query are
    invalid and the query throws. *)
Definition window (f : Session.fields) : option (Z * Z) :=
  sd ← Session.f_scheduledDate f;
  du ← Session.f_duration f;
  Some (sd, sd + du * 60000).

(** [POST /api/sessions] *)
Definition bookSession (caller : Caller) (now : Z) (body : BookBody)
  : Handler Response :=
  let f := sent body in
  artist <- Artist_findById (artistId body) ;;
  match artist with
  | None => send (failure 404 "Artist not found")
  | Some _ =>
      w <- orThrow (window f) ;;
      existingSession <-
        Session_findOne
          {| q_user := None; q_artist := Some (artistId body);
             q_status := Some ["pending"; "confirmed"];
             q_date_gte := Some (fst w); q_date_lt := Some (snd w);
             q_rated := false |} ;;
      match existingSession with
      | Some _ => send (failure 400 "Artist is not available at the requested time")
      | None =>
          session <-
            Session_create now
              {| Session.f_user := Some (id caller);
                 Session.f_artist := Some (artistId body);
                 Session.f_sessionType := Session.f_sessionType f;
                 Session.f_title := Session.f_title f;
                 Session.f_description := Session.f_description f;
                 Session.f_scheduledDate := Session.f_scheduledDate f;
                 Session.f_duration := Session.f_duration f;
                 Session.f_format := Session.f_format f;
                 Session.f_location := Session.f_location f;
                 Session.f_amount := Session.f_amount f;
                 Session.f_currency := Session.f_currency f;
                 Session.f_status := None;
                 Session.f_paymentStatus := None;
                 Session.f_score := Js.Undefined;
                 Session.f_review := None |} ;;
          populatedSession <- Session_findById (fst session) ;;
          send {| code := 201; success := true;
                  message := Some "Session booked successfully";
                  data := OneSession (pair (fst session) <$> populatedSession) |}
      end
  end.

Definition validStatuses : list string :=
  ["pending"; "confirmed"; "completed"; "cancelled"; "rescheduled"].

(** [isOwner || isArtist || isAdmin] of the status and detail routes. *)
Definition mayUpdate (caller : Caller) (artist : option (ObjectId * Artist.t))
    (session : Session.t) : bool :=
  let isOwner := bool_decide (Session.user session = id caller) in
  let isArtist :=
    match artist with
    | Some (aid, _) => bool_decide (Session.artist session = aid)
    | None => false
    end in
  let isAdmin := bool_decide (role caller = role_admin) in
  isOwner || isArtist || isAdmin.

(** [PUT /api/sessions/:id/status] with body [{ status }] *)
Definition updateSessionStatus (caller : Caller) (now : Z) (sid : ObjectId)
    (status : option string) : Handler Response :=
  match status with
  | Some v =>
      if bool_decide (v ∈ validStatuses) then
        session <- Session_findById sid ;;
        match session with
        | None => send (failure 404 "Session not found")
        | Some session =>
            artist <- Artist_findOne (id caller) ;;
            if mayUpdate caller artist session then
              Session_save now sid (Session.set_status session v) ;;
              updatedSession <- Session_findById sid ;;
              send {| code := 200; success := true;
                      message := Some "Session status updated successfully";
                      data := OneSession (pair sid <$> updatedSession) |}
            else send (failure 403 "Not authorized to update this session")
        end
      else send (failure 400 "Invalid status")
  | None => send (failure 400 "Invalid status")
  end.

(** The body of [PUT /api/sessions/:id/rate]. *)
Record RateBody := {
  score : Js.value;
  review : option string
}.

(** [sessions.reduce((sum, s) => sum + s.rating.score, 0)] over documents
    that all carry a score. *)
Definition sumScores (l : list (ObjectId * Session.t)) : Qc :=
  fold_left
    (fun sum s => (sum + default 0%Qc (Session.score (Session.rating (snd s))))%Qc)
    l 0%Qc.

(** [Math.round(averageRating * 10) / 10] *)
Definition round1 (averageRating : Js.number) : Js.number :=
  Js.div (Js.Math_round (Js.mul averageRating (Js.ofZ 10))) (Js.ofZ 10).

(** The filter of the aggregate: the rated sessions of one artist. *)
Definition ratedBy (a : ObjectId) : SessionQuery :=
  {| q_user := None; q_artist := Some a; q_status := None;
     q_date_gte := None; q_date_lt := None; q_rated := true |}.

(** [PUT /api/sessions/:id/rate] *)
Definition rateSession (caller : Caller) (now : Z) (sid : ObjectId)
    (body : RateBody) : Handler Response :=
  if Js.lt (score body) (Js.lit 1) || Js.gt (score body) (Js.lit 5) then
    send (failure 400 "Rating must be between 1 and 5")
  else
    session <- Session_findById sid ;;
    match session with
    | None => send (failure 404 "Session not found")
    | Some session =>
        if negb (bool_decide (Session.user session = id caller)) then
          send (failure 403 "Not authorized to rate this session")
        else if negb (bool_decide (Session.status session = Session.completed)) then
          send (failure 400 "Session must be completed before rating")
        else
          session <-
            Session_save now sid
              (Session.set_rating session (score body) (review body) now) ;;
          artist <- Artist_findById (Session.artist session) ;;
          sessions <- Session_find (ratedBy (Session.artist session)) ;;
          let totalRatings := length sessions in
          let averageRating :=
            Js.div (Js.Fin (sumScores sessions)) (Js.ofZ (Z.of_nat totalRatings)) in
          (* [artist.ratings] on [null] is a TypeError *)
          artist <- orThrow artist ;;
          Artist_save (Session.artist session)
            (Artist.set_ratings artist (round1 averageRating) totalRatings) ;;
          send {| code := 200; success := true;
                  message := Some "Session rated successfully";
                  data := OneSession (Some (sid, session)) |}
    end.

(** [GET /api/sessions/:id]. The session is loaded with its customer and
    its artist populated; [users] is the set of the accounts that exist
    (the users collection is otherwise outside the model), and a populated
    reference whose document is gone is [null]. *)
Definition getSession (users : gset N) (caller : Caller) (sid : ObjectId)
  : Handler Response :=
  session <- Session_findById sid ;;
  st <- get ;;
  match session with
  | None => send (failure 404 "Session not found")
  | Some session =>
      artist <- Artist_findOne (id caller) ;;
      (* [session.user._id] on [null] is a TypeError *)
      if negb (bool_decide (Session.user session ∈ users)) then throw
      else
        let isOwner := bool_decide (Session.user session = id caller) in
        isArtist <-
          match artist with
          | Some (aid, _) =>
              (* [session.artist._id] on [null] is a TypeError *)
              orThrow (artists st !! Session.artist session) ;;
              ret (bool_decide (Session.artist session = aid))
          | None => ret false
          end ;;
        let isAdmin := bool_decide (role caller = role_admin) in
        if negb isOwner && negb isArtist && negb isAdmin then
          send (failure 403 "Not authorized to view this session")
        else
          send {| code := 200; success := true; message := None;
                  data := OneSession (Some (sid, session)) |}
  end.

(** ** Vocabulary of the properties *)

(** The replies of the rating route, by the name the taxonomy gives them. *)
Definition InvalidArgument : Response := failure 400 "Rating must be between 1 and 5".
Definition SessionNotFound : Response := failure 404 "Session not found".
Definition Forbidden : Response := failure 403 "Not authorized to rate this session".
Definition InvalidState : Response := failure 400 "Session must be completed before rating".
Definition Conflict : Response :=
  failure 400 "Artist is not available at the requested time".

Definition Rated (sid : ObjectId) (s : Session.t) : Response :=
  {| code := 200; success := true; message := Some "Session rated successfully";
     data := OneSession (Some (sid, s)) |}.

(** The range guard of the rating route. *)
Definition outOfRange (v : Js.value) : bool :=
  Js.lt v (Js.lit 1) || Js.gt v (Js.lit 5).

(** The aggregate that the rating route computes from the rated sessions of
    an artist. *)
Definition aggregate (l : list (ObjectId * Session.t)) : Js.number :=
  round1 (Js.div (Js.Fin (sumScores l)) (Js.ofZ (Z.of_nat (length l)))).

(** The session that a rating writes back: the three leaves of [rating]
    replaced, [updatedAt] moved by the save hook. *)
Definition rated_doc (s : Session.t) (q : option Qc) (rv : option string)
    (now : Z) : Session.t :=
  Session.pre_save now
    (Session.with_rating s
       {| Session.score := q; Session.review := rv; Session.ratedAt := Some now |}).

(** The rated sessions of the artist of [s'] once [s'] is stored under
    [sid]: what the route reads back after the save. *)
Definition rated_after (st : Store) (sid : ObjectId) (s' : Session.t)
  : list (ObjectId * Session.t) :=
  select (ratedBy (Session.artist s')) (<[sid := s']> (sessions st)).

(** Every way a call of the rating route can end: the reply and the store
    it leaves. *)
Inductive rate_result (caller : Caller) (now : Z) (sid : ObjectId)
    (body : RateBody) (st : Store) : Response -> Store -> Prop :=
  | rate_out_of_range :
      outOfRange (score body) = true ->
      rate_result caller now sid body st InvalidArgument st
  | rate_not_found :
      outOfRange (score body) = false ->
      sessions st !! sid = None ->
      rate_result caller now sid body st SessionNotFound st
  | rate_forbidden s :
      outOfRange (score body) = false ->
      sessions st !! sid = Some s ->
      Session.user s ≠ id caller ->
      rate_result caller now sid body st Forbidden st
  | rate_not_completed s :
      outOfRange (score body) = false ->
      sessions st !! sid = Some s ->
      Session.user s = id caller ->
      Session.status s ≠ Session.completed ->
      rate_result caller now sid body st InvalidState st
  | rate_threw_before_write :
      outOfRange (score body) = false ->
      rate_result caller now sid body st ServerError st
  | rate_threw_after_write s q :
      outOfRange (score body) = false ->
      sessions st !! sid = Some s ->
      Session.user s = id caller ->
      Session.status s = Session.completed ->
      Session.validate_score (score body) = Some q ->
      rate_result caller now sid body st ServerError
        (with_sessions st
           (<[sid := rated_doc s q (review body) now]> (sessions st)))
  | rate_done s q a a' :
      outOfRange (score body) = false ->
      sessions st !! sid = Some s ->
      Session.user s = id caller ->
      Session.status s = Session.completed ->
      Session.validate_score (score body) = Some q ->
      artists st !! Session.artist s = Some a ->
      Artist.set_ratings a
        (aggregate (rated_after st sid (rated_doc s q (review body) now)))
        (length (rated_after st sid (rated_doc s q (review body) now)))
      = Some a' ->
      rate_result caller now sid body st
        (Rated sid (rated_doc s q (review body) now))
        {| artists := <[Session.artist s := a']> (artists st);
           sessions := <[sid := rated_doc s q (review body) now]> (sessions st) |}.

(** The rated sessions of an artist: the population of its aggregate. *)
Definition rated (st : Store) (a : ObjectId) : list (ObjectId * Session.t) :=
  select (ratedBy a) (sessions st).

(** The aggregate as the route computes it, with the schema default [0]
    while no session is rated. *)
Definition expected (l : list (ObjectId * Session.t)) : Js.number * nat :=
  (match l with [] => Js.Fin 0%Qc | _ => aggregate l end, length l).

Definition in_step (st : Store) : Prop :=
  map_Forall
    (fun a doc =>
       (Js.Fin (Artist.ratings_average doc), Artist.ratings_count doc)
       = expected (rated st a))
    (artists st).

(** The aggregate in the words of the data model. The mean of the scores of
    a population, and [r] being that mean rounded to one decimal place: a
    whole number of tenths, at most a twentieth away, the tie going up. *)
Definition tenths (k : Z) : Qc := (Q2Qc (inject_Z k) / Q2Qc (inject_Z 10))%Qc.

(** What [Math.round(m * 10) / 10] is on a rational. *)
Definition tenth (m : Qc) : Qc :=
  tenths (Qfloor (m * Q2Qc (inject_Z 10) + Q2Qc (1 # 2))%Qc).

Definition mean (l : list (ObjectId * Session.t)) : Qc :=
  (sumScores l / Q2Qc (inject_Z (Z.of_nat (length l))))%Qc.

Definition nearestTenth (x r : Qc) : Prop :=
  (∃ k : Z, r = tenths k)
  ∧ (r - Q2Qc (1 # 20) <= x)%Qc ∧ (x < r + Q2Qc (1 # 20))%Qc.

(** Every profile counts the rated sessions that reference it and carries
    their mean rounded to one decimal place ([0] while there is none). *)
Definition consistent (st : Store) : Prop :=
  map_Forall
    (fun a doc =>
       Artist.ratings_count doc = length (rated st a)
       ∧ match rated st a with
         | [] => Artist.ratings_average doc = 0%Qc
         | _ => nearestTenth (mean (rated st a)) (Artist.ratings_average doc)
         end)
    (artists st).

(** Referential integrity and the schema bounds on what is stored: every
    session references a profile, and a stored score lies in [[1, 5]]. *)
Definition scoreInRange (q : Qc) : Prop :=
  (Q2Qc (inject_Z 1) <= q)%Qc ∧ (q <= Q2Qc (inject_Z 5))%Qc.

#[global] Instance scoreInRange_dec q : Decision (scoreInRange q).
Proof. unfold scoreInRange. apply _. Defined.

Definition hasScoreInRange (d : ObjectId * Session.t) : Prop :=
  from_option scoreInRange False (Session.score (Session.rating (snd d))).

Definition integrity (st : Store) : Prop :=
  map_Forall
    (fun _ s =>
       is_Some (artists st !! Session.artist s)
       ∧ from_option scoreInRange True (Session.score (Session.rating s)))
    (sessions st).

#[global] Instance integrity_dec st : Decision (integrity st).
Proof.
  unfold integrity. apply map_Forall_dec. intros i s.
  apply and_dec; [apply _|].
  destruct (Session.score (Session.rating s)); simpl; apply _.
Defined.

(** A call of the rating route, with the faults of the store during it. *)
Record RateCall := {
  rc_caller : Caller;
  rc_now : Z;
  rc_session : ObjectId;
  rc_body : RateBody;
  rc_faults : option nat
}.

(** The store after a sequence of calls that were all answered 200. *)
Fixpoint rateAll (calls : list RateCall) (st : Store) : option Store :=
  match calls with
  | [] => Some st
  | c :: calls' =>
      let r := run (rateSession (rc_caller c) (rc_now c) (rc_session c) (rc_body c))
                   (rc_faults c) st in
      if bool_decide (code (fst r) = 200%N) then rateAll calls' (snd r) else None
  end.

(** The availability filter of the booking route for a request. *)
Definition busy (a : ObjectId) (w : Z * Z) : SessionQuery :=
  {| q_user := None; q_artist := Some a;
     q_status := Some ["pending"; "confirmed"];
     q_date_gte := Some (fst w); q_date_lt := Some (snd w);
     q_rated := false |}.

(** The object literal that the booking route hands to [Session.create]. *)
Definition booked_fields (caller : Caller) (body : BookBody) : Session.fields :=
  let f := sent body in
  {| Session.f_user := Some (id caller);
     Session.f_artist := Some (artistId body);
     Session.f_sessionType := Session.f_sessionType f;
     Session.f_title := Session.f_title f;
     Session.f_description := Session.f_description f;
     Session.f_scheduledDate := Session.f_scheduledDate f;
     Session.f_duration := Session.f_duration f;
     Session.f_format := Session.f_format f;
     Session.f_location := Session.f_location f;
     Session.f_amount := Session.f_amount f;
     Session.f_currency := Session.f_currency f;
     Session.f_status := None;
     Session.f_paymentStatus := None;
     Session.f_score := Js.Undefined;
     Session.f_review := None |}.

Definition Booked (i : ObjectId) (s : Session.t) : Response :=
  {| code := 201; success := true; message := Some "Session booked successfully";
     data := OneSession (Some (i, s)) |}.

(** Every way a call of the booking route can end. *)
Inductive book_result (caller : Caller) (now : Z) (body : BookBody)
    (st : Store) : Response -> Store -> Prop :=
  | book_no_artist :
      artists st !! artistId body = None ->
      book_result caller now body st (failure 404 "Artist not found") st
  | book_conflict w d :
      is_Some (artists st !! artistId body) ->
      window (sent body) = Some w ->
      head (select (busy (artistId body) w) (sessions st)) = Some d ->
      book_result caller now body st Conflict st
  | book_threw_before_write :
      book_result caller now body st ServerError st
  | book_threw_after_write w doc :
      is_Some (artists st !! artistId body) ->
      window (sent body) = Some w ->
      select (busy (artistId body) w) (sessions st) = [] ->
      Session.build now (booked_fields caller body) = Some doc ->
      book_result caller now body st ServerError
        (with_sessions st (<[fresh (dom (sessions st)) := doc]> (sessions st)))
  | book_done w doc :
      is_Some (artists st !! artistId body) ->
      window (sent body) = Some w ->
      select (busy (artistId body) w) (sessions st) = [] ->
      Session.build now (booked_fields caller body) = Some doc ->
      book_result caller now body st
        (Booked (fresh (dom (sessions st))) doc)
        (with_sessions st (<[fresh (dom (sessions st)) := doc]> (sessions st))).

(** Who may change the status of a session: the booking customer, an
    admin, or the user who owns the profile of the session's artist,
    profiles being one per user as [POST /api/artists] keeps them. *)
Definition oneProfilePerUser (st : Store) : Prop :=
  ∀ i j a b,
    artists st !! i = Some a -> artists st !! j = Some b ->
    Artist.user a = Artist.user b -> i = j.

Definition ownsProfile (st : Store) (caller : Caller) (aid : ObjectId) : Prop :=
  ∃ a, artists st !! aid = Some a ∧ Artist.user a = id caller.

Definition authorized (st : Store) (caller : Caller) (s : Session.t) : Prop :=
  Session.user s = id caller
  ∨ role caller = role_admin
  ∨ (oneProfilePerUser st ∧ ownsProfile st caller (Session.artist s)).

(** The session that a status update writes back. *)
Definition restated (s : Session.t) (new : Session.Status) (now : Z) : Session.t :=
  Session.pre_save now (Session.with_status s new).

Definition StatusUpdated (sid : ObjectId) (s : Session.t) : Response :=
  {| code := 200; success := true;
     message := Some "Session status updated successfully";
     data := OneSession (Some (sid, s)) |}.

(** The page of the listing: [limit] documents after the first
    [(page - 1) * limit] of the matches sorted by date. *)
Definition pageOf (rq : ListQuery) (found : list (ObjectId * Session.t))
  : list (ObjectId * Session.t) :=
  let page := Pos.to_nat (default 1%positive (l_page rq)) in
  let limit := Pos.to_nat (default 10%positive (l_limit rq)) in
  take limit (drop ((page - 1) * limit) (merge_sort byDate found)).

Definition Listed (rq : ListQuery) (found : list (ObjectId * Session.t))
  : Response :=
  let page := Pos.to_nat (default 1%positive (l_page rq)) in
  let limit := Pos.to_nat (default 10%positive (l_limit rq)) in
  {| code := 200; success := true; message := None;
     data := Page (length (pageOf rq found)) (length found)
                  (ceilDiv (length found) limit) page (pageOf rq found) |}.

(** One request served by the sessions router, as a step of the store. A
    rating counts as a step of [served] only when it is answered 200;
    [attempted] also takes the ratings that fail. *)
Inductive attempted : Store -> Store -> Prop :=
  | attempt_list caller now rq f st r st' :
      run (getSessions caller now rq) f st = (r, st') -> attempted st st'
  | attempt_book caller now body f st r st' :
      run (bookSession caller now body) f st = (r, st') -> attempted st st'
  | attempt_status caller now sid v f st r st' :
      run (updateSessionStatus caller now sid v) f st = (r, st') -> attempted st st'
  | attempt_rate caller now sid body f st r st' :
      run (rateSession caller now sid body) f st = (r, st') -> attempted st st'.


(** ** Vocabulary of the further properties *)

Definition ArtistNotFound : Response := failure 404 "Artist not found".
Definition InvalidStatus : Response := failure 400 "Invalid status".
Definition UpdateForbidden : Response :=
  failure 403 "Not authorized to update this session".
Definition ViewForbidden : Response :=
  failure 403 "Not authorized to view this session".

Definition Viewed (sid : ObjectId) (s : Session.t) : Response :=
  {| code := 200; success := true; message := None;
     data := OneSession (Some (sid, s)) |}.

(** A stored session that makes the booking route refuse the window [w] of
    artist [a]: it is of that artist, pending or confirmed, and starts
    inside the window. *)
Definition blocks (a : ObjectId) (w : Z * Z) (d : Session.t) : Prop :=
  Session.artist d = a
  ∧ (Session.status d = Session.pending ∨ Session.status d = Session.confirmed)
  ∧ fst w <= Session.scheduledDate d < snd w.

(** What a session is booked as: every path but [status], [rating] and
    [updatedAt]. *)
Definition sameBooking (s s' : Session.t) : Prop :=
  Session.user s' = Session.user s
  ∧ Session.artist s' = Session.artist s
  ∧ Session.sessionType s' = Session.sessionType s
  ∧ Session.title s' = Session.title s
  ∧ Session.description s' = Session.description s
  ∧ Session.scheduledDate s' = Session.scheduledDate s
  ∧ Session.duration s' = Session.duration s
  ∧ Session.format s' = Session.format s
  ∧ Session.location s' = Session.location s
  ∧ Session.amount s' = Session.amount s
  ∧ Session.currency s' = Session.currency s
  ∧ Session.paymentStatus s' = Session.paymentStatus s
  ∧ Session.createdAt s' = Session.createdAt s.

(** What a profile is, its aggregate apart. *)
Definition sameProfile (p p' : Artist.t) : Prop :=
  Artist.user p' = Artist.user p
  ∧ Artist.sessionRate p' = Artist.sessionRate p
  ∧ Artist.isActive p' = Artist.isActive p.

(** What a session adds to the number of ratings of its artist. *)
Definition counts (s : Session.t) : nat :=
  match Session.score (Session.rating s) with Some _ => 1 | None => 0 end.

(** The sessions that the listing route selects for a caller: those of the
    caller's profile for the role artist (all of them without a profile),
    the caller's own bookings for the other roles; of the status asked for,
    when one is; not before [now], when [upcoming] is ['true']. *)
Definition inScope (st : Store) (caller : Caller) (s : Session.t) : Prop :=
  match role caller with
  | role_artist =>
      match profileOf st (id caller) with
      | Some (aid, _) => Session.artist s = aid
      | None => True
      end
  | _ => Session.user s = id caller
  end.

Definition visible (st : Store) (caller : Caller) (now : Z) (rq : ListQuery)
    (s : Session.t) : Prop :=
  inScope st caller s
  ∧ (truthy (l_status rq) = true ->
     l_status rq = Some (Session.Status_name (Session.status s)))
  ∧ (l_upcoming rq = Some "true" -> now <= Session.scheduledDate s).



(** ** Scenarios *)

Module Scenario.

(** Artist X, session rate 500 INR, owned by user 7; customer 9; another
    user 8 with the role admin. *)
Definition artistX : Artist.t :=
  {| Artist.user := 7; Artist.sessionRate := Q2Qc (inject_Z 500);
     Artist.ratings_average := 0%Qc; Artist.ratings_count := 0;
     Artist.isActive := true |}.

Definition customer : Caller := {| id := 9; role := role_user |}.
Definition owner : Caller := {| id := 7; role := role_artist |}.
Definition admin : Caller := {| id := 8; role := role_admin |}.

(** 2024-01-10T10:00:00Z, and minutes after it. *)
Definition ten : Z := 1704880800000.
Definition after (minutes : Z) : Z := ten + minutes * 60000.

Definition empty : Store := {| artists := {[ 1%N := artistX ]}; sessions := ∅ |}.

(** A booking of artist X whose body also carries a status, a payment
    status and a score. *)
Definition booking (start minutes : Z) : BookBody :=
  {| artistId := 1;
     sent :=
       {| Session.f_user := Some 8%N; Session.f_artist := None;
          Session.f_sessionType := Some "lesson";
          Session.f_title := Some "Warli basics";
          Session.f_description := None;
          Session.f_scheduledDate := Some start;
          Session.f_duration := Some minutes;
          Session.f_format := Some "online";
          Session.f_location := None;
          Session.f_amount := Some (Q2Qc (inject_Z 500));
          Session.f_currency := None;
          Session.f_status := Some "completed";
          Session.f_paymentStatus := Some "paid";
          Session.f_score := Js.lit 5;
          Session.f_review := Some "great" |} |}.

(** A stored session of the customer with artist X. *)
Definition session (start minutes : Z) (st : Session.Status) (r : Session.Rating)
  : Session.t :=
  {| Session.user := 9; Session.artist := 1;
     Session.sessionType := Session.lesson; Session.title := "Warli basics";
     Session.description := None; Session.scheduledDate := start;
     Session.duration := minutes; Session.format := Session.online;
     Session.location := None; Session.amount := Q2Qc (inject_Z 500);
     Session.currency := "INR"; Session.status := st;
     Session.paymentStatus := Session.pay_pending; Session.rating := r;
     Session.createdAt := 0; Session.updatedAt := 0 |}.

(** One pending session at 10:00 for 60 minutes. *)
Definition oneBooked : Store :=
  {| artists := {[ 1%N := artistX ]};
     sessions := {[ 0%N := session ten 60 Session.pending Session.no_rating ]} |}.

(** Two completed sessions, none rated. *)
Definition twoCompleted : Store :=
  {| artists := {[ 1%N := artistX ]};
     sessions :=
       {[ 0%N := session ten 60 Session.completed Session.no_rating;
          1%N := session (after 120) 60 Session.completed Session.no_rating ]} |}.

(** A completed session rated 4, and the profile in step with it. *)
Definition four : Session.Rating :=
  {| Session.score := Some (Q2Qc (inject_Z 4)); Session.review := Some "great";
     Session.ratedAt := Some (after 300) |}.

Definition oneRated : Store :=
  {| artists :=
       {[ 1%N := {| Artist.user := 7; Artist.sessionRate := Q2Qc (inject_Z 500);
                    Artist.ratings_average := Q2Qc (inject_Z 4);
                    Artist.ratings_count := 1; Artist.isActive := true |} ]};
     sessions := {[ 0%N := session ten 60 Session.completed four ]} |}.

Definition rate (c : Caller) (sid : ObjectId) (v : Js.value) : RateCall :=
  {| rc_caller := c; rc_now := after 300; rc_session := sid;
     rc_body := {| score := v; review := Some "great" |}; rc_faults := None |}.

(** A caller with the role artist and no profile. *)
Definition newcomer : Caller := {| id := 42; role := role_artist |}.

Definition noFilter : ListQuery :=
  {| l_status := None; l_upcoming := None; l_page := None; l_limit := None |}.

Definition bothRated : Store :=
  default twoCompleted
    (rateAll [rate customer 0 (Js.lit 4); rate customer 1 (Js.lit 5)] twoCompleted).

(** A booking of artist X with the given session type, title and duration,
    and nothing else than the required paths. *)
Definition request (ty title : option string) (start : Z) (minutes : option Z)
  : BookBody :=
  {| artistId := 1;
     sent :=
       {| Session.f_user := None; Session.f_artist := None;
          Session.f_sessionType := ty; Session.f_title := title;
          Session.f_description := None;
          Session.f_scheduledDate := Some start;
          Session.f_duration := minutes;
          Session.f_format := Some "in-person";
          Session.f_location := None;
          Session.f_amount := Some (Q2Qc (inject_Z 1));
          Session.f_currency := Some "USD";
          Session.f_status := None; Session.f_paymentStatus := None;
          Session.f_score := Js.Undefined; Session.f_review := None |} |}.

(** The accounts of the scenario, and the same without the customer. *)
Definition accounts : gset N := {[ 7%N; 8%N; 9%N; 42%N ]}.
Definition withoutCustomer : gset N := {[ 7%N; 8%N; 42%N ]}.

End Scenario.

(** * Properties *)

#[global] Arguments Js.div : simpl never.
#[global] Arguments Js.mul : simpl never.
#[global] Arguments Js.Math_round : simpl never.
#[global] Arguments Js.lt : simpl never.
#[global] Arguments Js.gt : simpl never.
#[global] Arguments round1 : simpl never.
#[global] Arguments sumScores : simpl never.
#[global] Arguments select : simpl never.

(** ** The language on examples *)

Example StringToNumber_decimal : Js.StringToNumber " 3.50 " = Js.Fin (Q2Qc (7 # 2)).
Proof. vm_compute. first [reflexivity | f_equal; apply Qc_is_canon; reflexivity]. Qed.

Example StringToNumber_exponent : Js.StringToNumber "15e-1" = Js.Fin (Q2Qc (3 # 2)).
Proof. vm_compute. first [reflexivity | f_equal; apply Qc_is_canon; reflexivity]. Qed.

Example StringToNumber_hex : Js.StringToNumber "0x1F" = Js.ofZ 31.
Proof. vm_compute. reflexivity. Qed.

Example StringToNumber_empty : Js.StringToNumber EmptyString = Js.ofZ 0.
Proof. reflexivity. Qed.

Example StringToNumber_word : Js.StringToNumber "abc" = Js.NaN.
Proof. reflexivity. Qed.

Example StringToNumber_signed_hex : Js.StringToNumber "-0x10" = Js.NaN.
Proof. reflexivity. Qed.

Example StringToNumber_infinity : Js.StringToNumber "-Infinity" = Js.Inf true.
Proof. reflexivity. Qed.

Example undefined_is_not_below_one : Js.lt Js.Undefined (Js.lit 1) = false.
Proof. reflexivity. Qed.

Example null_is_below_one : Js.lt Js.Null (Js.lit 1) = true.
Proof. vm_compute. reflexivity. Qed.

Example seven_is_above_five : Js.gt (Js.Str "7") (Js.lit 5) = true.
Proof. vm_compute. reflexivity. Qed.

Example mean_of_none : Js.div (Js.ofZ 0) (Js.ofZ 0) = Js.NaN.
Proof. vm_compute. reflexivity. Qed.

Example round1_tie : round1 (Js.Fin (Q2Qc (17 # 4))) = Js.Fin (Q2Qc (43 # 10)).
Proof. vm_compute. first [reflexivity | f_equal; apply Qc_is_canon; reflexivity]. Qed.

(** ** Running the store operations *)

Lemma io_cases (st : Store) (f : option nat) :
  io (st, f) = (Threw, (st, f)) ∨ ∃ f', io (st, f) = (Next tt, (st, f')).
Proof.
  unfold io; simpl. destruct f as [[|n]|]; eauto.
Qed.

(** Every read either throws, leaving the state alone, or returns what the
    store holds. *)
Lemma read_cases {A} (g : Store -> A) (st : Store) (f : option nat) :
  (io ;; st' <- get ;; ret (g st')) (st, f) = (Threw, (st, f))
  ∨ ∃ f', (io ;; st' <- get ;; ret (g st')) (st, f) = (Next (g st), (st, f')).
Proof.
  unfold bind. destruct (io_cases st f) as [-> | [f' ->]]; simpl; eauto.
Qed.

Lemma Session_findById_cases i st f :
  Session_findById i (st, f) = (Threw, (st, f))
  ∨ ∃ f', Session_findById i (st, f) = (Next (sessions st !! i), (st, f')).
Proof. apply (read_cases (fun st => sessions st !! i)). Qed.

Lemma Session_find_cases q st f :
  Session_find q (st, f) = (Threw, (st, f))
  ∨ ∃ f', Session_find q (st, f) = (Next (select q (sessions st)), (st, f')).
Proof. apply (read_cases (fun st => select q (sessions st))). Qed.

Lemma Session_findOne_cases q st f :
  Session_findOne q (st, f) = (Threw, (st, f))
  ∨ ∃ f', Session_findOne q (st, f) = (Next (head (select q (sessions st))), (st, f')).
Proof. apply (read_cases (fun st => head (select q (sessions st)))). Qed.

Lemma Session_countDocuments_cases q st f :
  Session_countDocuments q (st, f) = (Threw, (st, f))
  ∨ ∃ f', Session_countDocuments q (st, f)
          = (Next (length (select q (sessions st))), (st, f')).
Proof. apply (read_cases (fun st => length (select q (sessions st)))). Qed.

Lemma Artist_findById_cases i st f :
  Artist_findById i (st, f) = (Threw, (st, f))
  ∨ ∃ f', Artist_findById i (st, f) = (Next (artists st !! i), (st, f')).
Proof. apply (read_cases (fun st => artists st !! i)). Qed.

Lemma Artist_findOne_cases u st f :
  Artist_findOne u (st, f) = (Threw, (st, f))
  ∨ ∃ f', Artist_findOne u (st, f) = (Next (profileOf st u), (st, f')).
Proof. apply (read_cases (fun st => profileOf st u)). Qed.

Lemma Session_save_cases now i doc st f :
  Session_save now i doc (st, f) = (Threw, (st, f))
  ∨ ∃ d f', doc = Some d
      ∧ Session_save now i doc (st, f)
        = (Next (Session.pre_save now d),
           (with_sessions st (<[i := Session.pre_save now d]> (sessions st)), f')).
Proof.
  unfold Session_save, bind. destruct doc as [d|]; simpl; [|by left].
  destruct (io_cases st f) as [-> | [f' ->]]; simpl; eauto.
Qed.

Lemma Artist_save_cases i doc st f :
  Artist_save i doc (st, f) = (Threw, (st, f))
  ∨ ∃ d f', doc = Some d
      ∧ Artist_save i doc (st, f)
        = (Next tt, (with_artists st (<[i := d]> (artists st)), f')).
Proof.
  unfold Artist_save, bind. destruct doc as [d|]; simpl; [|by left].
  destruct (io_cases st f) as [-> | [f' ->]]; simpl; eauto.
Qed.

Lemma Session_create_cases now fl st f :
  Session_create now fl (st, f) = (Threw, (st, f))
  ∨ ∃ d f', Session.build now fl = Some d
      ∧ Session_create now fl (st, f)
        = (Next (fresh (dom (sessions st)), d),
           (with_sessions st (<[fresh (dom (sessions st)) := d]> (sessions st)), f')).
Proof.
  unfold Session_create, bind. destruct (Session.build now fl) as [d|]; simpl; [|by left].
  destruct (io_cases st f) as [-> | [f' ->]]; simpl; eauto.
Qed.

Ltac reliable :=
  unfold run, bind, Session_findById, Session_find, Session_findOne,
    Session_countDocuments, Artist_findById, Artist_findOne, Session_save,
    Artist_save, Session_create, orThrow, io, get, put, ret, send, throw;
  simpl.

(** ** Selections and sums *)

Lemma select_elem q (m : gmap N Session.t) i d :
  (i, d) ∈ select q m ↔ m !! i = Some d ∧ matches q d = true.
Proof.
  unfold select. rewrite list_elem_of_filter, elem_of_map_to_list. simpl.
  rewrite Is_true_true. tauto.
Qed.

(** The empty filter selects the whole collection. *)
Lemma select_any (m : gmap N Session.t) : select any m = map_to_list m.
Proof.
  unfold select. induction (map_to_list m) as [|d l IH]; [done|].
  rewrite filter_cons_True by done. by rewrite IH.
Qed.





Lemma matches_ratedBy a s :
  matches (ratedBy a) s
  = bool_decide (Session.artist s = a)
    && bool_decide (is_Some (Session.score (Session.rating s))).
Proof. unfold matches, ratedBy; simpl. by rewrite !andb_true_r. Qed.


Lemma matches_busy a w d :
  matches (busy a w) d = true
  ↔ Session.artist d = a
    ∧ (Session.status d = Session.pending ∨ Session.status d = Session.confirmed)
    ∧ fst w <= Session.scheduledDate d < snd w.
Proof.
  unfold matches, busy; simpl. rewrite !andb_true_r, !andb_true_iff.
  rewrite !bool_decide_eq_true, Z.leb_le, Z.ltb_lt.
  split.
  - intros [[[Ha Hs] Hlo] Hhi]. repeat split; try done.
    destruct (Session.status d); simpl in Hs; auto;
      apply elem_of_cons in Hs as [Hs|Hs]; try discriminate Hs;
      apply elem_of_cons in Hs as [Hs|Hs]; try discriminate Hs;
      by apply elem_of_nil in Hs.
  - intros (Ha & Hs & Hlo & Hhi). repeat split; try done.
    destruct Hs as [-> | ->]; simpl; set_solver.
Qed.

Lemma sumScores_from (l : list (ObjectId * Session.t)) (acc : Qc) :
  fold_left
    (fun sum s => (sum + default 0%Qc (Session.score (Session.rating (snd s))))%Qc)
    l acc
  = (acc + sumScores l)%Qc.
Proof.
  unfold sumScores. revert acc.
  induction l as [|d l IH]; intros acc; simpl.
  - ring.
  - rewrite IH, (IH (0 + _)%Qc). ring.
Qed.

Lemma sumScores_cons d l :
  sumScores (d :: l)
  = (default 0%Qc (Session.score (Session.rating (snd d))) + sumScores l)%Qc.
Proof.
  unfold sumScores at 1. simpl. rewrite sumScores_from. ring.
Qed.




(** ** Rounding to one decimal place *)

Ltac qc :=
  unfold Qcdiv, Qcminus in *;
  unfold Qcle, Qclt, Qcplus, Qcmult, Qcopp, Qcinv in *;
  unfold Q2Qc in *; cbn [this] in *; rewrite ?Qred_correct in *;
  change (inject_Z 10) with 10%Q in *; change (inject_Z 1) with 1%Q in *;
  change (inject_Z 5) with 5%Q in *; change (inject_Z 0) with 0%Q in *;
  change (/ 10)%Q with (1 # 10)%Q in *.

Lemma Qfloor_unique (x : Q) (k : Z) :
  (inject_Z k <= x)%Q -> (x < inject_Z (k + 1))%Q -> Qfloor x = k.
Proof.
  intros Hlo Hhi.
  pose proof (Qfloor_le x) as H1. pose proof (Qlt_floor x) as H2.
  assert (inject_Z (Qfloor x) < inject_Z (k + 1))%Q as H3 by lra.
  assert (inject_Z k < inject_Z (Qfloor x + 1))%Q as H4 by lra.
  rewrite <- Zlt_Qlt in H3, H4. lia.
Qed.

Lemma ten_nonzero : Q2Qc (inject_Z 10) ≠ 0%Qc.
Proof. by intros [=]. Qed.

Lemma round1_Fin m : round1 (Js.Fin m) = Js.Fin (tenth m).
Proof.
  unfold round1, Js.mul, Js.Math_round, Js.div, Js.ofZ.
  by rewrite (bool_decide_eq_false_2 _ ten_nonzero).
Qed.

Lemma tenth_nearest m : nearestTenth m (tenth m).
Proof.
  unfold nearestTenth, tenth. split; [eauto|].
  pose proof (Qfloor_le (m * Q2Qc (inject_Z 10) + Q2Qc (1 # 2))%Qc) as Hlo.
  pose proof (Qlt_floor (m * Q2Qc (inject_Z 10) + Q2Qc (1 # 2))%Qc) as Hhi.
  set (k := Qfloor _) in *. clearbody k.
  rewrite inject_Z_plus in Hhi. unfold tenths.
  qc. split; lra.
Qed.

Lemma nearest_tenth m r : nearestTenth m r -> r = tenth m.
Proof.
  intros [[k ->] [Hlo Hhi]]. unfold tenth. f_equal. symmetry.
  apply Qfloor_unique; [|rewrite inject_Z_plus]; unfold tenths in *; qc; lra.
Qed.

Lemma tenth_in_range m :
  scoreInRange m ->
  (Q2Qc (inject_Z 0) <= tenth m)%Qc ∧ (tenth m <= Q2Qc (inject_Z 5))%Qc.
Proof.
  intros [H1 H5]. unfold tenth.
  pose proof (Qfloor_le (m * Q2Qc (inject_Z 10) + Q2Qc (1 # 2))%Qc) as Hlo.
  pose proof (Qlt_floor (m * Q2Qc (inject_Z 10) + Q2Qc (1 # 2))%Qc) as Hhi.
  set (k := Qfloor _) in *. clearbody k.
  rewrite inject_Z_plus in Hhi. unfold tenths.
  assert (10 <= k < 51)%Z as Hk.
  { split; [apply Z.lt_succ_r|]; rewrite Zlt_Qlt; unfold Z.succ;
      rewrite ?inject_Z_plus; qc; [change (inject_Z 10) with 10%Q|
        change (inject_Z 51) with 51%Q]; lra. }
  assert (inject_Z 10 <= inject_Z k)%Q as Hk1 by (rewrite <- Zle_Qle; lia).
  assert (inject_Z k <= inject_Z 50)%Q as Hk2 by (rewrite <- Zle_Qle; lia).
  change (inject_Z 50) with 50%Q in Hk2.
  qc. split; lra.
Qed.

Lemma count_nonzero n : Q2Qc (inject_Z (Z.of_nat (S n))) ≠ 0%Qc.
Proof.
  change 0%Qc with (Q2Qc 0). rewrite Q2Qc_eq_iff.
  unfold Qeq; simpl. lia.
Qed.

Lemma count_succ n :
  Q2Qc (inject_Z (Z.of_nat (S n))) = (Q2Qc (inject_Z 1) + Q2Qc (inject_Z (Z.of_nat n)))%Qc.
Proof.
  apply Qc_is_canon. rewrite Nat2Z.inj_succ. unfold Z.succ.
  rewrite inject_Z_plus. qc. ring.
Qed.

Lemma aggregate_nil : aggregate [] = Js.NaN.
Proof. vm_compute. reflexivity. Qed.

Lemma aggregate_cons d l : aggregate (d :: l) = Js.Fin (tenth (mean (d :: l))).
Proof.
  unfold aggregate, mean, Js.div, Js.ofZ. cbn [length].
  rewrite (bool_decide_eq_false_2 _ (count_nonzero _)).
  apply round1_Fin.
Qed.

(** The aggregate that the route stores is the aggregate of the data
    model. *)
Lemma expected_spec avg cnt l :
  (Js.Fin avg, cnt) = expected l
  ↔ cnt = length l
    ∧ match l with
      | [] => avg = 0%Qc
      | _ => nearestTenth (mean l) avg
      end.
Proof.
  unfold expected. destruct l as [|d l].
  - split; [intros [= -> ->]|intros [-> ->]]; done.
  - rewrite aggregate_cons. split.
    + intros [= -> ->]. split; [done|]. apply tenth_nearest.
    + intros [-> Hn]. by rewrite (nearest_tenth _ _ Hn).
Qed.

Lemma in_step_consistent st : in_step st ↔ consistent st.
Proof.
  unfold in_step, consistent, map_Forall.
  split; intros H a doc Ha; apply expected_spec, H, Ha.
Qed.

Lemma sumScores_bounds l :
  Forall hasScoreInRange l ->
  (Q2Qc (inject_Z (Z.of_nat (length l))) <= sumScores l)%Qc
  ∧ (sumScores l <= Q2Qc (inject_Z 5) * Q2Qc (inject_Z (Z.of_nat (length l))))%Qc.
Proof.
  induction 1 as [|d l Hd _ [IHlo IHhi]].
  - split; by vm_compute.
  - rewrite sumScores_cons. cbn [length]. rewrite count_succ.
    unfold hasScoreInRange in Hd.
    destruct (Session.score (Session.rating d.2)) as [q|]; [|done].
    destruct Hd as [H1 H5]. simpl.
    set (n := Q2Qc (inject_Z (Z.of_nat (length l)))) in *. clearbody n.
    set (t := sumScores l) in *. clearbody t.
    qc. split; lra.
Qed.

Lemma mean_in_range d l :
  Forall hasScoreInRange (d :: l) -> scoreInRange (mean (d :: l)).
Proof.
  intros Hl. destruct (sumScores_bounds _ Hl) as [Hlo Hhi].
  unfold mean, scoreInRange.
  pose proof (count_nonzero (length l)) as Hn. cbn [length] in *.
  set (n := Q2Qc (inject_Z (Z.of_nat (S (length l))))) in *.
  assert (0 < n)%Qc as Hpos.
  { unfold n. rewrite count_succ.
    assert (0 <= inject_Z (Z.of_nat (length l)))%Q
      by (change 0%Q with (inject_Z 0); rewrite <- Zle_Qle; lia).
    qc. lra. }
  clearbody n. set (t := sumScores (d :: l)) in *. clearbody t.
  split; apply (Qcmult_lt_0_le_reg_r _ _ n Hpos); unfold Qcdiv;
    rewrite <- (Qcmult_assoc t), (Qcmult_inv_l n Hn), Qcmult_1_r.
  - by rewrite Qcmult_1_l.
  - done.
Qed.

(** ** Casting and validation *)

Lemma inRange_Some lo hi x q :
  Session.inRange lo hi x = Some q ->
  x = Js.Fin q ∧ (Q2Qc (inject_Z lo) <= q)%Qc ∧ (q <= Q2Qc (inject_Z hi))%Qc.
Proof.
  unfold Session.inRange. destruct x as [| |p]; try done.
  repeat case_bool_decide; simpl; intros [= <-]; auto.
Qed.

Lemma set_ratings_Some a x n a' :
  Artist.set_ratings a x n = Some a' ->
  x = Js.Fin (Artist.ratings_average a') ∧ Artist.ratings_count a' = n
  ∧ Artist.user a' = Artist.user a.
Proof.
  unfold Artist.set_ratings.
  destruct (Session.inRange 0 5 x) as [q|] eqn:Hq; simpl; [|done].
  intros [= <-]. simpl. apply inRange_Some in Hq as [-> _]. done.
Qed.

Lemma set_ratings_in_range a l :
  l ≠ [] -> Forall hasScoreInRange l ->
  is_Some (Artist.set_ratings a (aggregate l) (length l)).
Proof.
  intros Hne Hl. destruct l as [|d l]; [done|].
  rewrite aggregate_cons. unfold Artist.set_ratings, Session.inRange.
  destruct (tenth_in_range _ (mean_in_range _ _ Hl)) as [H0 H5].
  rewrite !bool_decide_eq_true_2 by done. simpl. eauto.
Qed.

Lemma set_rating_Some s v rv now s0 :
  Session.set_rating s v rv now = Some s0 ->
  ∃ q, Session.validate_score v = Some q
       ∧ Session.pre_save now s0 = rated_doc s q rv now.
Proof.
  unfold Session.set_rating. destruct (Session.validate_score v) as [q|]; [|done].
  intros [= <-]. eauto.
Qed.

Lemma validate_score_in_range v q :
  Session.validate_score v = Some q -> from_option scoreInRange True q.
Proof.
  unfold Session.validate_score.
  destruct (Session.castNumber v) as [[n|]|]; simpl; try done.
  - destruct (Session.inRange 1 5 n) as [p|] eqn:Hp; simpl; [|done].
    intros [= <-]. simpl. by apply inRange_Some in Hp as (_ & ? & ?).
  - by intros [= <-].
Qed.

Lemma validate_score_inside q :
  scoreInRange q -> Session.validate_score (Js.Num (Js.Fin q)) = Some (Some q).
Proof.
  intros [H1 H5]. unfold Session.validate_score, Session.inRange. simpl.
  by rewrite !bool_decide_eq_true_2.
Qed.

Lemma build_defaults now f doc :
  Session.build now f = Some doc ->
  Session.f_status f = None ->
  Session.f_paymentStatus f = None ->
  Session.f_score f = Js.Undefined ->
  Session.f_review f = None ->
  Session.status doc = Session.pending
  ∧ Session.paymentStatus doc = Session.pay_pending
  ∧ Session.rating doc = Session.no_rating.
Proof.
  unfold Session.build. intros Hb Hs Hp Hsc Hrv.
  rewrite Hs, Hp, Hsc, Hrv in Hb. simpl in Hb.
  simplify_option_eq; done.
Qed.

Lemma Status_name_valid new : Session.Status_name new ∈ validStatuses.
Proof. destruct new; unfold validStatuses; simpl; set_solver. Qed.

Lemma Status_name_lookup new :
  Session.enum_lookup Session.Status_enum (Session.Status_name new) = Some new.
Proof. by destruct new. Qed.

(** ** The booking route *)

Lemma bookSession_result caller now body f st r st' :
  run (bookSession caller now body) f st = (r, st') ->
  book_result caller now body st r st'.
Proof.
  unfold run, bookSession.
  unfold bind at 1.
  destruct (Artist_findById_cases (artistId body) st f) as [-> | [f0 ->]]; simpl.
  { intros [= <- <-]. constructor. }
  destruct (artists st !! artistId body) as [a|] eqn:Ha; simpl.
  2: { intros [= <- <-]. by constructor. }
  unfold bind at 1.
  destruct (window (sent body)) as [w|] eqn:Hw; simpl.
  2: { intros [= <- <-]. constructor. }
  unfold bind at 1. fold (busy (artistId body) w).
  destruct (Session_findOne_cases (busy (artistId body) w) st f0)
    as [-> | [f1 ->]]; simpl.
  { intros [= <- <-]. constructor. }
  destruct (head (select (busy (artistId body) w) (sessions st))) as [d|] eqn:Hd; simpl.
  { intros [= <- <-]. econstructor; eauto. }
  apply head_None in Hd.
  unfold bind at 1. fold (booked_fields caller body).
  destruct (Session_create_cases now (booked_fields caller body) st f1)
    as [-> | (doc & f2 & Hdoc & ->)]; simpl.
  { intros [= <- <-]. constructor. }
  unfold bind at 1.
  match goal with |- context [Session_findById ?i (?s, ?f)] =>
    destruct (Session_findById_cases i s f) as [-> | [f3 ->]]; simpl
  end.
  { intros [= <- <-]. eapply book_threw_after_write; eauto. }
  rewrite lookup_insert_eq. simpl.
  intros [= <- <-]. eapply book_done; eauto.
Qed.

(** C3. Whatever the body of a booking request carries, a session that the
    booking route creates (reply 201) is stored with status [pending],
    payment status [pending] and no rating, and it is the document of the
    reply. *)
Theorem booked_session_is_pending caller now body f st r st' :
  run (bookSession caller now body) f st = (r, st') ->
  code r = 201%N ->
  ∃ i doc,
    data r = OneSession (Some (i, doc))
    ∧ sessions st !! i = None
    ∧ st' = with_sessions st (<[i := doc]> (sessions st))
    ∧ Session.status doc = Session.pending
    ∧ Session.paymentStatus doc = Session.pay_pending
    ∧ Session.rating doc = Session.no_rating.
Proof.
  intros Hrun Hcode. apply bookSession_result in Hrun.
  destruct Hrun; try discriminate Hcode.
  exists (fresh (dom (sessions st))), doc.
  split; [done|]. split.
  { apply not_elem_of_dom, is_fresh. }
  split; [done|].
  eapply build_defaults; eauto.
Qed.

Lemma booked_session_is_pending_witness :
  ∃ i doc,
    data (fst (run (bookSession Scenario.customer 0 (Scenario.booking Scenario.ten 60))
                   None Scenario.empty))
    = OneSession (Some (i, doc))
    ∧ Session.status doc = Session.pending
    ∧ Session.paymentStatus doc = Session.pay_pending
    ∧ Session.rating doc = Session.no_rating.
Proof.
  destruct (booked_session_is_pending Scenario.customer 0
              (Scenario.booking Scenario.ten 60) None Scenario.empty
              (fst (run (bookSession Scenario.customer 0
                           (Scenario.booking Scenario.ten 60)) None Scenario.empty))
              (snd (run (bookSession Scenario.customer 0
                           (Scenario.booking Scenario.ten 60)) None Scenario.empty)))
    as (i & doc & Hdata & _ & _ & Hs & Hp & Hr).
  - vm_compute. reflexivity.
  - vm_compute. reflexivity.
  - exists i, doc. auto.
Defined.


(** A request is accepted as soon as no pending or confirmed session of the
    artist starts inside the requested window, whatever the sessions that
    started before it and are still running. *)
Lemma book_reliable_free caller now body st w doc :
  is_Some (artists st !! artistId body) ->
  window (sent body) = Some w ->
  select (busy (artistId body) w) (sessions st) = [] ->
  Session.build now (booked_fields caller body) = Some doc ->
  run (bookSession caller now body) None st
  = (Booked (fresh (dom (sessions st))) doc,
     with_sessions st (<[fresh (dom (sessions st)) := doc]> (sessions st))).
Proof.
  intros [a Ha] Hw Hsel Hdoc. unfold bookSession. reliable.
  rewrite Ha. simpl. rewrite Hw. simpl. fold (busy (artistId body) w).
  rewrite Hsel. simpl. fold (booked_fields caller body). rewrite Hdoc. simpl.
  by rewrite lookup_insert_eq.
Qed.

(** C1. The booking route on the scenario of the claim: artist X has a
    pending session at 10:00 for 60 minutes. The request for 10:30, 60
    minutes, overlaps it and is nevertheless answered 201 and stored; the
    request for 11:00, 30 minutes, is answered 201; the request for 9:30,
    60 minutes, whose window holds the start of the stored session, is the
    one answered with Conflict. *)
Theorem overlapping_booking_is_accepted :
  let book start minutes :=
    run (bookSession Scenario.customer 0 (Scenario.booking start minutes))
        None Scenario.oneBooked in
  code (fst (book (Scenario.after 30) 60)) = 201%N
  ∧ size (sessions (snd (book (Scenario.after 30) 60))) = 2%nat
  ∧ code (fst (book (Scenario.after 60) 30)) = 201%N
  ∧ fst (book (Scenario.after (-30)) 60) = Conflict.
Proof. vm_compute. done. Qed.

(** ** The status route *)

Lemma profileOf_owner st u aid a :
  oneProfilePerUser st ->
  artists st !! aid = Some a -> Artist.user a = u ->
  profileOf st u = Some (aid, a).
Proof.
  intros Hone Ha Hu. unfold profileOf.
  destruct (filter _ (map_to_list (artists st))) as [|[j b] l] eqn:Hf.
  - assert ((aid, a) ∈ filter (λ d, Artist.user d.2 = u) (map_to_list (artists st)))
      as Hin by (apply list_elem_of_filter; split; [done|by apply elem_of_map_to_list]).
    rewrite Hf in Hin. by apply elem_of_nil in Hin.
  - assert ((j, b) ∈ filter (λ d, Artist.user d.2 = u) (map_to_list (artists st)))
      as Hin by (rewrite Hf; left).
    apply list_elem_of_filter in Hin as [Hb Hj]. simpl in Hb.
    apply elem_of_map_to_list in Hj.
    assert (j = aid) as -> by (eapply Hone; eauto; congruence).
    simpl. congruence.
Qed.

Lemma authorized_mayUpdate st caller s :
  authorized st caller s -> mayUpdate caller (profileOf st (id caller)) s = true.
Proof.
  unfold mayUpdate. intros [Hu | [Hr | [Hone (a & Ha & Hu)]]].
  - by rewrite (bool_decide_eq_true_2 _ Hu).
  - rewrite (bool_decide_eq_true_2 _ Hr). by rewrite !orb_true_r.
  - rewrite (profileOf_owner st (id caller) _ a Hone Ha Hu).
    rewrite (bool_decide_eq_true_2 (Session.artist s = Session.artist s)) by done.
    by rewrite orb_true_r.
Qed.

Lemma updateSessionStatus_store caller now sid v f st r st' :
  run (updateSessionStatus caller now sid v) f st = (r, st') ->
  st' = st
  ∨ ∃ s new,
      sessions st !! sid = Some s
      ∧ st' = with_sessions st (<[sid := restated s new now]> (sessions st)).
Proof.
  unfold run, updateSessionStatus.
  destruct v as [v|]; [|intros [= <- <-]; by left].
  case_bool_decide as Hv; [|intros [= <- <-]; by left].
  unfold bind at 1.
  destruct (Session_findById_cases sid st f) as [-> | [f0 ->]]; simpl.
  { intros [= <- <-]. by left. }
  destruct (sessions st !! sid) as [s|] eqn:Hs; simpl.
  2: { intros [= <- <-]. by left. }
  unfold bind at 1.
  destruct (Artist_findOne_cases (id caller) st f0) as [-> | [f1 ->]]; simpl.
  { intros [= <- <-]. by left. }
  destruct (mayUpdate caller (profileOf st (id caller)) s); simpl.
  2: { intros [= <- <-]. by left. }
  unfold bind at 1.
  destruct (Session_save_cases now sid (Session.set_status s v) st f1)
    as [-> | (d & f2 & Hd & ->)]; simpl.
  { intros [= <- <-]. by left. }
  unfold Session.set_status in Hd.
  destruct (Session.enum_lookup Session.Status_enum v) as [new|]; [|done].
  injection Hd as <-.
  unfold bind at 1.
  match goal with |- context [Session_findById ?i (?s, ?f)] =>
    destruct (Session_findById_cases i s f) as [-> | [f3 ->]]; simpl
  end.
  all: intros [= <- <-]; right; exists s, new; eauto.
Qed.

(** C6. A status update by the booking customer, the owning artist or an
    admin, asking for any of the five statuses, is answered 200 and stores
    the session with that status, whatever its status was; the payment
    status, the rating and every other path but [updatedAt] are those of
    the stored session, and no other document changes. *)
Theorem status_is_overwritten caller now sid new st s :
  sessions st !! sid = Some s ->
  authorized st caller s ->
  run (updateSessionStatus caller now sid (Some (Session.Status_name new))) None st
  = (StatusUpdated sid (restated s new now),
     with_sessions st (<[sid := restated s new now]> (sessions st)))
  ∧ Session.status (restated s new now) = new
  ∧ Session.paymentStatus (restated s new now) = Session.paymentStatus s
  ∧ Session.rating (restated s new now) = Session.rating s.
Proof.
  intros Hs Hauth. split; [|done].
  unfold updateSessionStatus.
  rewrite (bool_decide_eq_true_2 _ (Status_name_valid new)).
  reliable. rewrite Hs. simpl.
  rewrite (authorized_mayUpdate _ _ _ Hauth). simpl.
  unfold Session.set_status. rewrite Status_name_lookup. simpl.
  by rewrite lookup_insert_eq.
Qed.

Lemma status_is_overwritten_witness :
  Session.status
    (restated (Scenario.session Scenario.ten 60 Session.completed Session.no_rating)
       Session.pending 5)
  = Session.pending
  ∧ fst (run (updateSessionStatus Scenario.owner 5 0 (Some "pending"))
             None Scenario.twoCompleted)
    = StatusUpdated 0
        (restated (Scenario.session Scenario.ten 60 Session.completed Session.no_rating)
           Session.pending 5).
Proof.
  destruct (status_is_overwritten Scenario.owner 5 0 Session.pending
              Scenario.twoCompleted
              (Scenario.session Scenario.ten 60 Session.completed Session.no_rating))
    as (Hrun & Hst & _).
  - reflexivity.
  - right; right. split.
    + intros i j a b Hi Hj _.
      unfold Scenario.twoCompleted in Hi, Hj. cbn [artists] in Hi, Hj.
      apply lookup_singleton_Some in Hi as [<- _].
      apply lookup_singleton_Some in Hj as [<- _]. reflexivity.
    + exists Scenario.artistX. split; reflexivity.
  - split; [exact Hst|].
    change (Some "pending") with (Some (Session.Status_name Session.pending)).
    rewrite Hrun. reflexivity.
Defined.

(** ** The rating route, case by case *)

Lemma rateSession_result caller now sid body f st r st' :
  run (rateSession caller now sid body) f st = (r, st') ->
  rate_result caller now sid body st r st'.
Proof.
  unfold run, rateSession. fold (outOfRange (score body)).
  destruct (outOfRange (score body)) eqn:Hg; simpl.
  { intros [= <- <-]. by constructor. }
  unfold bind at 1.
  destruct (Session_findById_cases sid st f) as [-> | [f0 ->]]; simpl.
  { intros [= <- <-]. by constructor. }
  destruct (sessions st !! sid) as [s|] eqn:Hs; simpl.
  2: { intros [= <- <-]. by constructor. }
  case_bool_decide as Hu; simpl.
  2: { intros [= <- <-]. by econstructor. }
  case_bool_decide as Hc; simpl.
  2: { intros [= <- <-]. by econstructor. }
  unfold bind at 1.
  destruct (Session_save_cases now sid
              (Session.set_rating s (score body) (review body) now) st f0)
    as [-> | (s0 & f1 & Hset & ->)]; simpl.
  { intros [= <- <-]. by constructor. }
  apply set_rating_Some in Hset as (q & Hq & Hdoc).
  change (Session.artist s0) with (Session.artist (Session.pre_save now s0)).
  rewrite !Hdoc. change (Session.artist (rated_doc _ _ _ _)) with (Session.artist s).
  assert (Hthrew : rate_result caller now sid body st ServerError
            (with_sessions st (<[sid := rated_doc s q (review body) now]> (sessions st))))
    by (eapply rate_threw_after_write; eauto).
  unfold bind at 1.
  match goal with |- context [Artist_findById ?i (?s, ?f)] =>
    destruct (Artist_findById_cases i s f) as [-> | [f2 ->]]; simpl
  end.
  { by intros [= <- <-]. }
  unfold bind at 1.
  match goal with |- context [Session_find ?q (?s, ?f)] =>
    destruct (Session_find_cases q s f) as [-> | [f3 ->]]; simpl
  end.
  { by intros [= <- <-]. }
  unfold bind at 1.
  destruct (artists st !! Session.artist s) as [a|] eqn:Ha; simpl.
  2: { by intros [= <- <-]. }
  unfold bind at 1.
  match goal with |- context [Artist_save ?i ?d (?s, ?f)] =>
    destruct (Artist_save_cases i d s f) as [-> | (a' & f4 & Hagg & ->)]; simpl
  end.
  { by intros [= <- <-]. }
  intros [= <- <-]. eapply rate_done; eauto.
Qed.



Lemma rate_reliable_forbidden caller now sid body st s :
  outOfRange (score body) = false ->
  sessions st !! sid = Some s ->
  Session.user s ≠ id caller ->
  run (rateSession caller now sid body) None st = (Forbidden, st).
Proof.
  intros Hg Hs Hu. unfold rateSession. fold (outOfRange (score body)).
  rewrite Hg. reliable. rewrite Hs. simpl.
  by rewrite bool_decide_eq_false_2.
Qed.


Lemma rate_reliable_done caller now sid body st s q a a' :
  outOfRange (score body) = false ->
  sessions st !! sid = Some s ->
  Session.user s = id caller ->
  Session.status s = Session.completed ->
  Session.validate_score (score body) = Some q ->
  artists st !! Session.artist s = Some a ->
  Artist.set_ratings a
    (aggregate (rated_after st sid (rated_doc s q (review body) now)))
    (length (rated_after st sid (rated_doc s q (review body) now)))
  = Some a' ->
  run (rateSession caller now sid body) None st
  = (Rated sid (rated_doc s q (review body) now),
     {| artists := <[Session.artist s := a']> (artists st);
        sessions := <[sid := rated_doc s q (review body) now]> (sessions st) |}).
Proof.
  intros Hg Hs Hu Hc Hq Ha Ha'.
  unfold rateSession. fold (outOfRange (score body)).
  rewrite Hg. reliable. rewrite Hs. simpl.
  rewrite !bool_decide_eq_true_2 by done. simpl.
  unfold Session.set_rating. rewrite Hq. simpl.
  rewrite Ha. simpl.
  fold (rated_doc s q (review body) now).
  unfold aggregate, rated_after in Ha'. simpl in Ha'. rewrite Ha'. done.
Qed.

(** ** The range guard of the rating route *)

Lemma IsLessThan_number_r v z :
  Js.IsLessThan v (Js.lit z) = Js.lessThan (Js.ToNumber v) (Js.ofZ z).
Proof. by destruct v. Qed.

Lemma IsLessThan_number_l v z :
  Js.IsLessThan (Js.lit z) v = Js.lessThan (Js.ofZ z) (Js.ToNumber v).
Proof. by destruct v. Qed.

(** The guard in terms of [ToNumber(score)]. *)
Lemma outOfRange_ToNumber v :
  outOfRange v
  = match Js.ToNumber v with
    | Js.NaN => false
    | Js.Inf _ => true
    | Js.Fin q =>
        bool_decide (q < Q2Qc (inject_Z 1))%Qc
        || bool_decide (Q2Qc (inject_Z 5) < q)%Qc
    end.
Proof.
  unfold outOfRange, Js.lt, Js.gt.
  rewrite IsLessThan_number_r, IsLessThan_number_l.
  by destruct (Js.ToNumber v) as [|[]|q].
Qed.



Lemma outOfRange_inside q :
  scoreInRange q -> outOfRange (Js.Num (Js.Fin q)) = false.
Proof.
  intros [H1 H5]. rewrite outOfRange_ToNumber. simpl.
  apply orb_false_iff. rewrite !bool_decide_eq_false.
  split; by apply Qcle_not_lt.
Qed.




(** ** Rejections of the rating route *)




(** C5, as amended. On an existing session the rating route answers 200
    only to the booking customer, whatever the store's faults; every other
    caller whose score passes the range guard, the owning artist and an
    admin among them, is answered 403 and the store is unchanged. *)
Theorem rate_only_by_customer caller now sid body st s :
  sessions st !! sid = Some s ->
  (∀ f r st',
     run (rateSession caller now sid body) f st = (r, st') ->
     code r = 200%N ->
     Session.user s = id caller)
  ∧ (Session.user s ≠ id caller ->
     outOfRange (score body) = false ->
     run (rateSession caller now sid body) None st = (Forbidden, st)).
Proof.
  intros Hs. split.
  - intros f r st' Hrun Hcode. apply rateSession_result in Hrun.
    destruct Hrun; try discriminate Hcode. congruence.
  - intros Hu Hg. eapply rate_reliable_forbidden; eauto.
Qed.

Lemma rate_only_by_customer_witness :
  run (rateSession Scenario.owner 0 0 {| score := Js.lit 4; review := None |})
      None Scenario.twoCompleted
  = (Forbidden, Scenario.twoCompleted)
  ∧ run (rateSession Scenario.admin 0 0 {| score := Js.lit 4; review := None |})
        None Scenario.twoCompleted
    = (Forbidden, Scenario.twoCompleted).
Proof.
  split.
  - apply (proj2 (rate_only_by_customer Scenario.owner 0 0
                    {| score := Js.lit 4; review := None |} Scenario.twoCompleted
                    (Scenario.session Scenario.ten 60 Session.completed
                       Session.no_rating) eq_refl)).
    + vm_compute. discriminate.
    + vm_compute. reflexivity.
  - apply (proj2 (rate_only_by_customer Scenario.admin 0 0
                    {| score := Js.lit 4; review := None |} Scenario.twoCompleted
                    (Scenario.session Scenario.ten 60 Session.completed
                       Session.no_rating) eq_refl)).
    + vm_compute. discriminate.
    + vm_compute. reflexivity.
Defined.

(** The claim as stated fails: an admin who is not the booking customer and
    sends the score 0 is answered 400, not 403. *)
Lemma admin_with_score_zero_is_not_forbidden :
  sessions Scenario.twoCompleted !! 0%N
  = Some (Scenario.session Scenario.ten 60 Session.completed Session.no_rating)
  ∧ id Scenario.admin ≠ 9%N
  ∧ run (rateSession Scenario.admin 0 0 {| score := Js.lit 0; review := None |})
        None Scenario.twoCompleted
    = (InvalidArgument, Scenario.twoCompleted)
  ∧ code InvalidArgument ≠ 403%N.
Proof. split; [|split; [|split]]; [vm_compute; reflexivity|done|vm_compute; reflexivity|done]. Qed.

(** ** Rating again *)

Lemma rated_after_write st sid s q rv now :
  integrity st ->
  sessions st !! sid = Some s ->
  scoreInRange q ->
  let l := rated_after st sid (rated_doc s (Some q) rv now) in
  l ≠ [] ∧ Forall hasScoreInRange l.
Proof.
  intros Hint Hs Hq l. unfold rated_after in l. simpl in l. split.
  - assert ((sid, rated_doc s (Some q) rv now) ∈ l) as Hin.
    { apply select_elem. rewrite lookup_insert_eq. split; [done|].
      rewrite matches_ratedBy. simpl. rewrite !bool_decide_eq_true_2; eauto. }
    intros Hl. rewrite Hl in Hin. by apply elem_of_nil in Hin.
  - apply list.Forall_forall. intros [i d] Hin.
    apply select_elem in Hin as [Hd Hm].
    rewrite lookup_insert in Hd. case_decide as Hi.
    + injection Hd as <-. done.
    + destruct (Hint i d Hd) as [_ Hr].
      rewrite matches_ratedBy in Hm. apply andb_true_iff in Hm as [_ Hsc].
      apply bool_decide_eq_true in Hsc as [p Hp].
      unfold hasScoreInRange. simpl. rewrite Hp in *. done.
Qed.

(** C7. On a store that keeps referential integrity and the schema bounds,
    and does not fail, the booking customer who rates a completed session
    that already carries a rating, with a score in [[1, 5]], is answered
    200: no guard refuses the second rating, and the stored score, review
    and date of rating are replaced by the new ones. *)
Theorem rerating_overwrites caller now sid q rv st s old :
  integrity st ->
  sessions st !! sid = Some s ->
  Session.status s = Session.completed ->
  Session.score (Session.rating s) = Some old ->
  Session.user s = id caller ->
  scoreInRange q ->
  let s' := rated_doc s (Some q) rv now in
  ∃ st',
    run (rateSession caller now sid {| score := Js.Num (Js.Fin q); review := rv |})
        None st
    = (Rated sid s', st')
    ∧ sessions st' !! sid = Some s'
    ∧ Session.rating s'
      = {| Session.score := Some q; Session.review := rv;
           Session.ratedAt := Some now |}.
Proof.
  intros Hint Hs Hc _ Hu Hq s'.
  destruct (Hint sid s Hs) as [[a Ha] _].
  destruct (rated_after_write st sid s q rv now Hint Hs Hq) as [Hne Hall].
  destruct (set_ratings_in_range a _ Hne Hall) as [a' Ha'].
  eexists. split; [|split].
  - eapply (rate_reliable_done caller now sid
              {| score := Js.Num (Js.Fin q); review := rv |} st s (Some q) a a');
      simpl; eauto using outOfRange_inside, validate_score_inside.
  - simpl. apply lookup_insert_eq.
  - done.
Qed.

Lemma rerating_overwrites_witness :
  ∃ st',
    run (rateSession Scenario.customer 9 0
           {| score := Js.Num (Js.Fin (Q2Qc (inject_Z 2))); review := None |})
        None Scenario.oneRated
    = (Rated 0
         (rated_doc (Scenario.session Scenario.ten 60 Session.completed Scenario.four)
            (Some (Q2Qc (inject_Z 2))) None 9),
       st')
    ∧ Session.rating <$> sessions st' !! 0%N
      = Some {| Session.score := Some (Q2Qc (inject_Z 2)); Session.review := None;
                Session.ratedAt := Some 9 |}.
Proof.
  destruct (rerating_overwrites Scenario.customer 9 0 (Q2Qc (inject_Z 2)) None
              Scenario.oneRated
              (Scenario.session Scenario.ten 60 Session.completed Scenario.four)
              (Q2Qc (inject_Z 4)))
    as (st' & Hrun & Hs' & Hr).
  - apply (bool_decide_unpack _). vm_compute. reflexivity.
  - reflexivity.
  - reflexivity.
  - reflexivity.
  - reflexivity.
  - split; vm_compute; discriminate.
  - exists st'. split; [exact Hrun|]. rewrite Hs'. simpl. reflexivity.
Defined.

(** ** Failures of the rating route *)

(** C8, as amended. A rating call that is not answered 200 and fails at a
    guard (400, 404, 403) leaves the store as it was. A call answered 500
    leaves the store as it was or has written the rating on the session
    and nothing on the profile: the session is saved before the aggregate
    is computed, and nothing takes the save back. *)
Theorem rate_failure_writes caller now sid body f st r st' :
  run (rateSession caller now sid body) f st = (r, st') ->
  code r ≠ 200%N ->
  (code r ≠ 500%N -> st' = st)
  ∧ (st' = st
     ∨ (r = ServerError
        ∧ artists st' = artists st
        ∧ ∃ s q,
            sessions st !! sid = Some s
            ∧ Session.validate_score (score body) = Some q
            ∧ sessions st'
              = <[sid := rated_doc s q (review body) now]> (sessions st))).
Proof.
  intros Hrun Hcode. apply rateSession_result in Hrun.
  destruct Hrun; simpl in Hcode; try done.
  1-5: by split; [|left].
  split; [by intros []|].
  right. repeat split; eauto.
Qed.

Lemma rate_failure_writes_witness :
  let call :=
    run (rateSession Scenario.customer 5 0
           {| score := Js.lit 4; review := Some "fine" |})
        (Some 4%nat) Scenario.twoCompleted in
  snd call = Scenario.twoCompleted
  ∨ (fst call = ServerError
     ∧ artists (snd call) = artists Scenario.twoCompleted
     ∧ ∃ s q,
         sessions Scenario.twoCompleted !! 0%N = Some s
         ∧ Session.validate_score (Js.lit 4) = Some q
         ∧ sessions (snd call)
           = <[0%N := rated_doc s q (Some "fine") 5]> (sessions Scenario.twoCompleted)).
Proof.
  intros call.
  apply (rate_failure_writes Scenario.customer 5 0
           {| score := Js.lit 4; review := Some "fine" |}
           (Some 4%nat) Scenario.twoCompleted (fst call) (snd call)).
  - apply surjective_pairing.
  - vm_compute. discriminate.
Defined.

(** The claim as stated fails. When the store fails at the save of the
    profile (its fifth operation in the call), the reply is 500, the
    session carries the new rating and the profile still carries the old
    aggregate. The same happens without any fault of the store when the
    score is absent and no session of the artist is rated: the mean is
    [0 / 0] and the profile refuses [NaN]. *)
Lemma rating_half_written :
  let call v f :=
    run (rateSession Scenario.customer 5 0 {| score := v; review := Some "fine" |})
        f Scenario.twoCompleted in
  fst (call (Js.lit 4) (Some 4%nat)) = ServerError
  ∧ artists (snd (call (Js.lit 4) (Some 4%nat))) = artists Scenario.twoCompleted
  ∧ Session.rating <$> sessions (snd (call (Js.lit 4) (Some 4%nat))) !! 0%N
    = Some {| Session.score := Some (Q2Qc (inject_Z 4));
              Session.review := Some "fine"; Session.ratedAt := Some 5 |}
  ∧ Session.rating <$> sessions Scenario.twoCompleted !! 0%N
    = Some Session.no_rating
  ∧ fst (call Js.Undefined None) = ServerError
  ∧ artists (snd (call Js.Undefined None)) = artists Scenario.twoCompleted
  ∧ Session.rating <$> sessions (snd (call Js.Undefined None)) !! 0%N
    = Some {| Session.score := None;
              Session.review := Some "fine"; Session.ratedAt := Some 5 |}.
Proof. repeat split; vm_compute; reflexivity. Qed.

(** ** The aggregate of an artist *)





(** The scenario of the testable properties: after the ratings 4 and 5 the
    profile carries the average 4.5 and the count 2. *)
Example scenario_two_ratings :
  (λ a, (this (Artist.ratings_average a), Artist.ratings_count a))
    <$> artists Scenario.bothRated !! 1%N
  = Some ((9 # 2)%Q, 2%nat).
Proof. vm_compute. reflexivity. Qed.

(** Whatever the store was, a rating answered 200 leaves the profile of the
    rated session's artist with the count and the rounded mean of its rated
    sessions, the new one among them. *)
Lemma rating_refreshes_aggregate caller now sid body f st r st' s :
  run (rateSession caller now sid body) f st = (r, st') ->
  code r = 200%N ->
  sessions st !! sid = Some s ->
  ∃ a',
    artists st' !! Session.artist s = Some a'
    ∧ Artist.ratings_count a' = length (rated st' (Session.artist s))
    ∧ rated st' (Session.artist s) ≠ []
    ∧ nearestTenth (mean (rated st' (Session.artist s))) (Artist.ratings_average a').
Proof.
  intros Hrun Hcode Hs. apply rateSession_result in Hrun.
  destruct Hrun; try discriminate Hcode.
  assert (s0 = s) as -> by congruence.
  exists a'. unfold rated; simpl.
  change (select _ _) with (rated_after st sid (rated_doc s q (review body) now)).
  split; [apply lookup_insert_eq|].
  match goal with H : Artist.set_ratings _ _ _ = Some _ |- _ =>
    apply set_ratings_Some in H as (Havg & Hcnt & _) end.
  destruct (rated_after _ _ _) as [|d l] eqn:Hl.
  { by rewrite aggregate_nil in Havg. }
  rewrite aggregate_cons in Havg. injection Havg as Havg.
  split; [done|]. split; [done|].
  rewrite <- Havg. apply tenth_nearest.
Qed.

(** ** The listing route *)

Lemma profileOf_None st u :
  (∀ i a, artists st !! i = Some a -> Artist.user a ≠ u) ->
  profileOf st u = None.
Proof.
  intros Hno. unfold profileOf.
  destruct (filter _ (map_to_list (artists st))) as [|[j b] l] eqn:Hf; [done|].
  assert ((j, b) ∈ filter (λ d, Artist.user d.2 = u) (map_to_list (artists st)))
    as Hin by (rewrite Hf; left).
  apply list_elem_of_filter in Hin as [Hb Hj].
  apply elem_of_map_to_list in Hj. by destruct (Hno j b Hj).
Qed.

Lemma getSessions_store caller now rq f st r st' :
  run (getSessions caller now rq) f st = (r, st') -> st' = st.
Proof.
  unfold run, getSessions. unfold bind at 1.
  assert (Hq : (∃ f', listQuery caller now rq (st, f) = (Threw, (st, f')))
               ∨ ∃ q f', listQuery caller now rq (st, f) = (Next q, (st, f'))).
  { unfold listQuery, bind.
    destruct (role caller); [by right; eexists _, f| |by right; eexists _, f].
    destruct (Artist_findOne_cases (id caller) st f) as [-> | [f0 ->]]; simpl; eauto.
    destruct (profileOf st (id caller)) as [[aid a]|];
      right; eexists _, _; reflexivity. }
  destruct Hq as [[f0 ->] | (q & f0 & ->)]; simpl.
  { by intros [= <- <-]. }
  unfold bind at 1.
  destruct (Session_find_cases q st f0) as [-> | [f1 ->]]; simpl.
  { by intros [= <- <-]. }
  unfold bind at 1.
  destruct (Session_countDocuments_cases q st f1) as [-> | [f2 ->]]; simpl.
  all: by intros [= <- <-].
Qed.

(** C9. A caller with the role artist for whom no profile is stored, and
    who sends neither a status nor [upcoming=true], is answered 200 with a
    page of the whole sessions collection sorted by date, and with its size
    as the total: the filter of the query is empty. When the first page is
    asked for and the collection fits in it, every stored session, of any
    user and any artist, is in the reply. *)
Theorem artist_without_profile_lists_all caller now rq st :
  role caller = role_artist ->
  (∀ i a, artists st !! i = Some a -> Artist.user a ≠ id caller) ->
  truthy (l_status rq) = false ->
  l_upcoming rq ≠ Some "true" ->
  fst (listQuery caller now rq (st, None)) = Next any
  ∧ run (getSessions caller now rq) None st
    = (Listed rq (map_to_list (sessions st)), st)
  ∧ (default 1%positive (l_page rq) = 1%positive ->
     (size (sessions st) ≤ Pos.to_nat (default 10%positive (l_limit rq)))%nat ->
     ∀ i s, sessions st !! i = Some s ->
            (i, s) ∈ pageOf rq (map_to_list (sessions st))).
Proof.
  intros Hrole Hnone Hst Hup.
  assert (Hq : listQuery caller now rq (st, None) = (Next any, (st, None))).
  { unfold listQuery. rewrite Hrole. reliable.
    rewrite (profileOf_None _ _ Hnone). simpl.
    rewrite Hst. by rewrite bool_decide_eq_false_2. }
  split; [by rewrite Hq|]. split.
  - unfold getSessions, run. unfold bind at 1. rewrite Hq.
    reliable. by rewrite select_any.
  - intros Hpage Hsize i s Hs. unfold pageOf. rewrite Hpage. simpl.
    rewrite drop_0, take_ge.
    + rewrite merge_sort_Permutation. by apply elem_of_map_to_list.
    + rewrite merge_sort_Permutation, length_map_to_list. exact Hsize.
Qed.

Lemma artist_without_profile_lists_all_witness :
  run (getSessions Scenario.newcomer 0 Scenario.noFilter) None Scenario.twoCompleted
  = (Listed Scenario.noFilter (map_to_list (sessions Scenario.twoCompleted)),
     Scenario.twoCompleted)
  ∧ (0%N, Scenario.session Scenario.ten 60 Session.completed Session.no_rating)
    ∈ pageOf Scenario.noFilter (map_to_list (sessions Scenario.twoCompleted)).
Proof.
  destruct (artist_without_profile_lists_all Scenario.newcomer 0 Scenario.noFilter
              Scenario.twoCompleted) as (_ & Hrun & Hall).
  - reflexivity.
  - intros i a Hi. unfold Scenario.twoCompleted in Hi. cbn [artists] in Hi.
    apply lookup_singleton_Some in Hi as [_ <-]. discriminate.
  - reflexivity.
  - discriminate.
  - split; [exact Hrun|].
    apply Hall; [reflexivity|vm_compute; lia|reflexivity].
Defined.

(** ** What the routes keep *)



(** Every route keeps referential integrity and the schema bounds. *)
Lemma bookSession_integrity caller now body f st r st' :
  run (bookSession caller now body) f st = (r, st') ->
  integrity st -> integrity st'.
Proof.
  intros Hrun Hst. apply bookSession_result in Hrun.
  destruct Hrun; try done.
  all: apply map_Forall_insert_2; [|done]; simpl;
    match goal with H : Session.build _ _ = Some _ |- _ =>
      destruct (build_defaults _ _ _ H) as (_ & _ & ->); try done;
      unfold Session.build in H; simplify_option_eq; done end.
Qed.

Lemma updateSessionStatus_integrity caller now sid v f st r st' :
  run (updateSessionStatus caller now sid v) f st = (r, st') ->
  integrity st -> integrity st'.
Proof.
  intros Hrun Hst.
  apply updateSessionStatus_store in Hrun as [-> | (s & new & Hs & ->)]; [done|].
  apply map_Forall_insert_2; [|done]. apply (Hst sid s Hs).
Qed.

Lemma rateSession_integrity caller now sid body f st r st' :
  run (rateSession caller now sid body) f st = (r, st') ->
  integrity st -> integrity st'.
Proof.
  intros Hrun Hst. apply rateSession_result in Hrun.
  destruct Hrun; try done.
  - apply map_Forall_insert_2; [|done]. simpl.
    split; [apply (Hst sid s); done|]. by eapply validate_score_in_range.
  - intros i d Hd. simpl in *. 
    assert (is_Some (artists st !! Session.artist d)
            ∧ from_option scoreInRange True (Session.score (Session.rating d)))
      as [[b Hb] Hsc].
    { rewrite lookup_insert in Hd. case_decide.
      - injection Hd as <-. simpl.
        split; [apply (Hst sid s); done|]. by eapply validate_score_in_range.
      - by apply (Hst i d). }
    split; [|done]. rewrite lookup_insert. case_decide; eauto.
Qed.

(** X25. Along any sequence of requests to the sessions router, failed
    ones and faults of the store included, the store keeps referential
    integrity and the schema bounds: every session has its artist's profile
    and a stored score lies between 1 and 5. *)
Lemma integrity_kept st st' : rtc attempted st st' -> integrity st -> integrity st'.
Proof.
  induction 1 as [|st st1 st2 Hstep _ IH]; [done|]. intros Hst. apply IH.
  destruct Hstep as [??????? Hrun|?????? Hrun|??????? Hrun|??????? Hrun].
  - by rewrite (getSessions_store _ _ _ _ _ _ _ Hrun).
  - by eapply bookSession_integrity.
  - by eapply updateSessionStatus_integrity.
  - by eapply rateSession_integrity.
Qed.


Example empty_store_is_sound :
  integrity Scenario.empty ∧ consistent Scenario.empty.
Proof.
  split; [|apply in_step_consistent]; apply (bool_decide_unpack _);
    vm_compute; reflexivity.
Qed.

(** * Further properties of the sessions router *)

(** ** Booking *)

Lemma select_busy_nil a w (m : gmap N Session.t) :
  select (busy a w) m = [] ↔ ∀ i d, m !! i = Some d -> ¬ blocks a w d.
Proof.
  split.
  - intros Hnil i d Hd Hb. apply matches_busy in Hb.
    assert ((i, d) ∈ select (busy a w) m) as Hin by by apply select_elem.
    rewrite Hnil in Hin. by apply elem_of_nil in Hin.
  - intros Hfree. destruct (select (busy a w) m) as [|[i d] l] eqn:Hsel; [done|].
    assert ((i, d) ∈ select (busy a w) m) as Hin by (rewrite Hsel; left).
    apply select_elem in Hin as [Hd Hm]. apply matches_busy in Hm.
    by destruct (Hfree i d Hd).
Qed.

Lemma build_fields now f doc :
  Session.build now f = Some doc ->
  Session.f_user f = Some (Session.user doc)
  ∧ Session.f_artist f = Some (Session.artist doc)
  ∧ Session.f_scheduledDate f = Some (Session.scheduledDate doc)
  ∧ Session.f_duration f = Some (Session.duration doc)
  ∧ Session.f_amount f = Some (Session.amount doc)
  ∧ Session.currency doc = default "INR" (Session.f_currency f)
  ∧ Session.description doc = Session.f_description f
  ∧ Session.location doc = Session.f_location f
  ∧ Session.createdAt doc = now
  ∧ Session.updatedAt doc = now.
Proof.
  unfold Session.build. intros Hb. simplify_option_eq; done.
Qed.



(** X2. A booking whose fields do not validate against the session schema
    (no title, an unknown session type or format, no amount, a description
    of more than 500 characters) is never answered 201 and nothing is
    stored; when the artist exists and the window is free, the reply is
    the 500 of the catch-all handler, not a 400. *)
Theorem invalid_booking_is_server_error caller now body st :
  Session.build now (booked_fields caller body) = None ->
  (∀ f r st',
     run (bookSession caller now body) f st = (r, st') ->
     code r ≠ 201%N ∧ st' = st)
  ∧ (∀ w,
       is_Some (artists st !! artistId body) ->
       window (sent body) = Some w ->
       (∀ i d, sessions st !! i = Some d -> ¬ blocks (artistId body) w d) ->
       run (bookSession caller now body) None st = (ServerError, st)).
Proof.
  intros Hb. split.
  - intros f r st' Hrun. apply bookSession_result in Hrun.
    destruct Hrun; try done; congruence.
  - intros w [a Ha] Hw Hfree. apply select_busy_nil in Hfree.
    unfold bookSession. reliable. rewrite Ha. simpl. rewrite Hw. simpl.
    fold (busy (artistId body) w). rewrite Hfree. simpl.
    fold (booked_fields caller body). by rewrite Hb.
Qed.

Lemma invalid_booking_is_server_error_witness :
  run (bookSession Scenario.customer 0
         (Scenario.request (Some "lesson") None (Scenario.after 120) (Some 60)))
      None Scenario.oneBooked
  = (ServerError, Scenario.oneBooked)
  ∧ run (bookSession Scenario.customer 0
           (Scenario.request (Some "concert") (Some "Gond") Scenario.ten (Some 60)))
        None Scenario.empty
    = (ServerError, Scenario.empty).
Proof.
  split.
  - apply (proj2 (invalid_booking_is_server_error Scenario.customer 0
                    (Scenario.request (Some "lesson") None (Scenario.after 120)
                       (Some 60))
                    Scenario.oneBooked eq_refl)
                 (Scenario.after 120, Scenario.after 180)).
    + vm_compute. eauto.
    + reflexivity.
    + intros i d Hd. unfold Scenario.oneBooked in Hd. cbn [sessions] in Hd.
      apply lookup_singleton_Some in Hd as [_ <-].
      intros (_ & _ & Hlo & _). simpl in Hlo.
      unfold Scenario.after, Scenario.ten in Hlo. lia.
  - apply (proj2 (invalid_booking_is_server_error Scenario.customer 0
                    (Scenario.request (Some "concert") (Some "Gond") Scenario.ten
                       (Some 60))
                    Scenario.empty eq_refl)
                 (Scenario.ten, Scenario.after 60)).
    + vm_compute. eauto.
    + reflexivity.
    + intros i d Hd. unfold Scenario.empty in Hd. cbn [sessions] in Hd.
      by rewrite lookup_empty in Hd.
Defined.

(** X3. The session that a booking answered 201 stores is booked by the
    caller and with the artist of [artistId], whatever [user] and [artist]
    the body carries; its date, duration, amount and currency (INR when
    none is given) are those of the body, the artist's session rate is not
    read; it is created and updated at the time of the request. *)
Theorem booking_records_caller_and_body caller now body f st r st' :
  run (bookSession caller now body) f st = (r, st') ->
  code r = 201%N ->
  ∃ i doc,
    data r = OneSession (Some (i, doc))
    ∧ sessions st' !! i = Some doc
    ∧ Session.user doc = id caller
    ∧ Session.artist doc = artistId body
    ∧ Session.f_scheduledDate (sent body) = Some (Session.scheduledDate doc)
    ∧ Session.f_duration (sent body) = Some (Session.duration doc)
    ∧ Session.f_amount (sent body) = Some (Session.amount doc)
    ∧ Session.currency doc = default "INR" (Session.f_currency (sent body))
    ∧ Session.createdAt doc = now
    ∧ Session.updatedAt doc = now.
Proof.
  intros Hrun Hcode. apply bookSession_result in Hrun.
  destruct Hrun as [| | | |w doc _ _ _ Hdoc]; try discriminate Hcode.
  exists (fresh (dom (sessions st))), doc.
  split; [done|]. split; [apply lookup_insert_eq|].
  apply build_fields in Hdoc as (Hu & Ha & Hsd & Hdu & Ham & Hcu & _ & _ & Hc & Hupd).
  simpl in *. by repeat split; try congruence.
Qed.

Lemma booking_records_caller_and_body_witness :
  ∃ i doc,
    data (fst (run (bookSession Scenario.customer 3
                      (Scenario.booking Scenario.ten 60)) None Scenario.empty))
    = OneSession (Some (i, doc))
    ∧ Session.user doc = 9%N
    ∧ Session.currency doc = "INR"
    ∧ Session.createdAt doc = 3.
Proof.
  destruct (booking_records_caller_and_body Scenario.customer 3
              (Scenario.booking Scenario.ten 60) None Scenario.empty
              (fst (run (bookSession Scenario.customer 3
                           (Scenario.booking Scenario.ten 60)) None Scenario.empty))
              (snd (run (bookSession Scenario.customer 3
                           (Scenario.booking Scenario.ten 60)) None Scenario.empty)))
    as (i & doc & Hdata & _ & Hu & _ & _ & _ & _ & Hcu & Hc & _).
  - vm_compute. reflexivity.
  - vm_compute. reflexivity.
  - exists i, doc. auto.
Defined.



(** X5. A booking with a duration of zero or less has an empty window: it
    is never answered with Conflict, whatever the store holds and however
    it fails. *)
Theorem empty_window_is_never_refused caller now body f st r st' minutes :
  Session.f_duration (sent body) = Some minutes ->
  minutes <= 0 ->
  run (bookSession caller now body) f st = (r, st') ->
  r ≠ Conflict.
Proof.
  intros Hdu Hneg Hrun Hr. subst r. apply bookSession_result in Hrun.
  inversion Hrun as [| w [i d] _ Hw Hhead | | |]; subst.
  apply head_Some_elem_of, select_elem in Hhead as [_ Hm].
  apply matches_busy in Hm as (_ & _ & Hlo & Hhi).
  unfold window in Hw. rewrite Hdu in Hw.
  destruct (Session.f_scheduledDate (sent body)) as [sd|]; [|done].
  injection Hw as <-. simpl in *. lia.
Qed.

Lemma empty_window_is_never_refused_witness :
  fst (run (bookSession Scenario.customer 0
              (Scenario.request (Some "lesson") (Some "Gond") Scenario.ten (Some 0)))
           None Scenario.oneBooked)
  ≠ Conflict.
Proof.
  apply (empty_window_is_never_refused Scenario.customer 0
           (Scenario.request (Some "lesson") (Some "Gond") Scenario.ten (Some 0))
           None Scenario.oneBooked _
           (snd (run (bookSession Scenario.customer 0
                        (Scenario.request (Some "lesson") (Some "Gond") Scenario.ten
                           (Some 0)))
                     None Scenario.oneBooked)) 0).
  - reflexivity.
  - lia.
  - apply surjective_pairing.
Defined.

Lemma book_conflict_blocked caller now body f st st' w :
  run (bookSession caller now body) f st = (Conflict, st') ->
  window (sent body) = Some w ->
  ∃ i d, sessions st !! i = Some d ∧ blocks (artistId body) w d.
Proof.
  intros Hrun Hw. apply bookSession_result in Hrun.
  inversion Hrun as [| w' [i d] _ Hw' Hhead | | |]; subst.
  assert (w' = w) as -> by congruence.
  apply head_Some_elem_of, select_elem in Hhead as [Hd Hm].
  exists i, d. split; [done|]. by apply matches_busy.
Qed.

Lemma status_reliable_done caller now sid new st s :
  sessions st !! sid = Some s ->
  mayUpdate caller (profileOf st (id caller)) s = true ->
  run (updateSessionStatus caller now sid (Some (Session.Status_name new))) None st
  = (StatusUpdated sid (restated s new now),
     with_sessions st (<[sid := restated s new now]> (sessions st))).
Proof.
  intros Hs Hmay. unfold updateSessionStatus.
  rewrite (bool_decide_eq_true_2 _ (Status_name_valid new)).
  reliable. rewrite Hs. simpl. rewrite Hmay. simpl.
  unfold Session.set_status. rewrite Status_name_lookup. simpl.
  by rewrite lookup_insert_eq.
Qed.


(** X6. A session that blocked a window stops blocking it once an
    authorized caller sets its status to completed, cancelled or
    rescheduled: when it was the only session in the way, the booking of
    that window is no longer answered with Conflict. *)
Theorem released_slot_can_be_booked caller now sid new st s caller' now' body w :
  sessions st !! sid = Some s ->
  authorized st caller s ->
  new ≠ Session.pending -> new ≠ Session.confirmed ->
  window (sent body) = Some w ->
  (∀ i d, sessions st !! i = Some d -> blocks (artistId body) w d -> i = sid) ->
  fst (run (bookSession caller' now' body) None
         (snd (run (updateSessionStatus caller now sid
                      (Some (Session.Status_name new))) None st)))
  ≠ Conflict.
Proof.
  intros Hs Hauth Hp Hc Hw Honly.
  rewrite (status_reliable_done caller now sid new st s Hs
             (authorized_mayUpdate _ _ _ Hauth)).
  simpl. intros Hr.
  destruct (run (bookSession caller' now' body) None _) as [r st2] eqn:Hrun.
  simpl in Hr. subst r.
  apply (book_conflict_blocked _ _ _ _ _ _ w) in Hrun as (i & d & Hd & Hb); [|done].
  simpl in Hd. rewrite lookup_insert in Hd. case_decide as Hi.
  - injection Hd as <-. destruct Hb as (_ & [Hb | Hb] & _); simpl in Hb; congruence.
  - by apply Hi, eq_sym, (Honly i d).
Qed.

Lemma released_slot_can_be_booked_witness :
  fst (run (bookSession Scenario.admin 7
              (Scenario.booking (Scenario.after (-30)) 60)) None
         (snd (run (updateSessionStatus Scenario.customer 5 0 (Some "cancelled"))
                   None Scenario.oneBooked)))
  ≠ Conflict.
Proof.
  apply (released_slot_can_be_booked Scenario.customer 5 0 Session.cancelled
           Scenario.oneBooked
           (Scenario.session Scenario.ten 60 Session.pending Session.no_rating)
           Scenario.admin 7 (Scenario.booking (Scenario.after (-30)) 60)
           (Scenario.after (-30), Scenario.after 30)).
  - reflexivity.
  - left. reflexivity.
  - discriminate.
  - discriminate.
  - reflexivity.
  - intros i d Hd _. unfold Scenario.oneBooked in Hd. cbn [sessions] in Hd.
    apply lookup_singleton_Some in Hd as [<- _]. reflexivity.
Defined.





(** ** Status updates *)

Lemma profileOf_Some st u aid a :
  profileOf st u = Some (aid, a) -> artists st !! aid = Some a ∧ Artist.user a = u.
Proof.
  unfold profileOf. intros Hh.
  apply head_Some_elem_of, list_elem_of_filter in Hh as [Hu Ha].
  split; [by apply elem_of_map_to_list|done].
Qed.

Lemma stranger_mayUpdate st caller s :
  Session.user s ≠ id caller ->
  role caller ≠ role_admin ->
  ¬ ownsProfile st caller (Session.artist s) ->
  mayUpdate caller (profileOf st (id caller)) s = false.
Proof.
  intros Hu Hr Hown. unfold mayUpdate.
  rewrite (bool_decide_eq_false_2 _ Hu), (bool_decide_eq_false_2 _ Hr). simpl.
  destruct (profileOf st (id caller)) as [[aid a]|] eqn:Hp; [|done].
  apply profileOf_Some in Hp as [Ha Hua].
  rewrite orb_false_r. apply bool_decide_eq_false_2. intros Heq.
  apply Hown. exists a. by rewrite Heq.
Qed.

(** Every way a call of the status route can end. *)
Lemma updateSessionStatus_result caller now sid v f st r st' :
  run (updateSessionStatus caller now sid v) f st = (r, st') ->
  (st' = st
   ∧ (r = InvalidStatus ∨ r = SessionNotFound ∨ r = UpdateForbidden ∨ r = ServerError))
  ∨ ∃ s new,
      sessions st !! sid = Some s
      ∧ v = Some (Session.Status_name new)
      ∧ mayUpdate caller (profileOf st (id caller)) s = true
      ∧ st' = with_sessions st (<[sid := restated s new now]> (sessions st))
      ∧ (r = StatusUpdated sid (restated s new now) ∨ r = ServerError).
Proof.
  unfold run, updateSessionStatus.
  destruct v as [v|]; [|intros [= <- <-]; left; auto].
  case_bool_decide as Hv; [|intros [= <- <-]; left; auto].
  unfold bind at 1.
  destruct (Session_findById_cases sid st f) as [-> | [f0 ->]]; simpl.
  { intros [= <- <-]. left; auto. }
  destruct (sessions st !! sid) as [s|] eqn:Hs; simpl.
  2: { intros [= <- <-]. left; auto. }
  unfold bind at 1.
  destruct (Artist_findOne_cases (id caller) st f0) as [-> | [f1 ->]]; simpl.
  { intros [= <- <-]. left; auto. }
  destruct (mayUpdate caller (profileOf st (id caller)) s) eqn:Hmay; simpl.
  2: { intros [= <- <-]. left; auto 6. }
  unfold bind at 1.
  destruct (Session_save_cases now sid (Session.set_status s v) st f1)
    as [-> | (d & f2 & Hd & ->)]; simpl.
  { intros [= <- <-]. left; auto 6. }
  unfold Session.set_status in Hd.
  destruct (Session.enum_lookup Session.Status_enum v) as [new|] eqn:Hnew; [|done].
  injection Hd as <-.
  assert (v = Session.Status_name new) as ->.
  { revert Hnew. unfold Session.Status_enum. simpl.
    repeat case_bool_decide; intros [= <-]; by subst. }
  unfold bind at 1.
  match goal with |- context [Session_findById ?i (?s, ?f)] =>
    destruct (Session_findById_cases i s f) as [-> | [f3 ->]]; simpl
  end.
  - intros [= <- <-]. right. exists s, new. auto 6.
  - rewrite lookup_insert_eq. simpl.
    intros [= <- <-]. right. exists s, new. auto 6.
Qed.

(** X9. The status route checks the requested status before anything
    else: a status that is absent or not one of the five is answered 400
    whatever the session, the caller and the store's faults, even for a
    session that does not exist. With a valid status a missing session is
    answered 404, and a caller who is neither the booking customer nor an
    admin and does not own the profile of the session's artist is answered
    403. Nothing is written in any of these cases. *)
Theorem status_refusals caller now sid v st :
  ((v = None ∨ ∃ x, v = Some x ∧ x ∉ validStatuses) ->
   ∀ f, run (updateSessionStatus caller now sid v) f st = (InvalidStatus, st))
  ∧ (∀ new,
       v = Some (Session.Status_name new) ->
       (sessions st !! sid = None ->
        run (updateSessionStatus caller now sid v) None st = (SessionNotFound, st))
       ∧ (∀ s,
            sessions st !! sid = Some s ->
            Session.user s ≠ id caller ->
            role caller ≠ role_admin ->
            ¬ ownsProfile st caller (Session.artist s) ->
            run (updateSessionStatus caller now sid v) None st
            = (UpdateForbidden, st))).
Proof.
  split.
  - intros [-> | (x & -> & Hx)] f; unfold run, updateSessionStatus; [done|].
    by rewrite (bool_decide_eq_false_2 _ Hx).
  - intros new ->. unfold updateSessionStatus.
    rewrite (bool_decide_eq_true_2 _ (Status_name_valid new)). split.
    + intros Hs. reliable. by rewrite Hs.
    + intros s Hs Hu Hr Hown. reliable. rewrite Hs. simpl.
      by rewrite (stranger_mayUpdate st caller s Hu Hr Hown).
Qed.

Lemma status_refusals_witness :
  run (updateSessionStatus Scenario.customer 0 77 (Some "done")) (Some 0%nat)
      Scenario.oneBooked
  = (InvalidStatus, Scenario.oneBooked)
  ∧ run (updateSessionStatus Scenario.customer 0 77 (Some "cancelled")) None
        Scenario.oneBooked
    = (SessionNotFound, Scenario.oneBooked)
  ∧ run (updateSessionStatus Scenario.newcomer 0 0 (Some "cancelled")) None
        Scenario.oneBooked
    = (UpdateForbidden, Scenario.oneBooked).
Proof.
  split; [|split].
  - apply (proj1 (status_refusals Scenario.customer 0 77 (Some "done")
                    Scenario.oneBooked)).
    right. exists "done". split; [reflexivity|].
    unfold validStatuses. intros Hin.
    repeat (apply elem_of_cons in Hin as [Hin|Hin]; [discriminate Hin|]).
    by apply elem_of_nil in Hin.
  - apply (proj1 (proj2 (status_refusals Scenario.customer 0 77 (Some "cancelled")
                           Scenario.oneBooked) Session.cancelled eq_refl)).
    reflexivity.
  - apply (proj2 (proj2 (status_refusals Scenario.newcomer 0 0 (Some "cancelled")
                           Scenario.oneBooked) Session.cancelled eq_refl)
                 (Scenario.session Scenario.ten 60 Session.pending Session.no_rating)).
    + reflexivity.
    + discriminate.
    + discriminate.
    + intros (a & Ha & Hu). unfold Scenario.oneBooked in Ha. cbn [artists] in Ha.
      simpl in Ha. apply lookup_singleton_Some in Ha as [_ <-]. discriminate Hu.
Defined.

(** X10. Whatever a call of the status route is answered and however the
    store fails, it writes at most the [status] and [updatedAt] of the one
    session it names: the profiles and every other session are left as
    they were, the session is not deleted, and its customer, artist,
    schedule, price, payment status and rating are kept. A reply other
    than 200 and 500 means that nothing was written. *)
Theorem status_route_frame caller now sid v f st r st' :
  run (updateSessionStatus caller now sid v) f st = (r, st') ->
  artists st' = artists st
  ∧ (∀ i, i ≠ sid -> sessions st' !! i = sessions st !! i)
  ∧ (∀ s, sessions st !! sid = Some s ->
          ∃ s', sessions st' !! sid = Some s'
                ∧ sameBooking s s'
                ∧ Session.rating s' = Session.rating s)
  ∧ (code r ≠ 200%N -> code r ≠ 500%N -> st' = st).
Proof.
  intros Hrun.
  apply updateSessionStatus_result in Hrun
    as [[-> Hr] | (s & new & Hs & -> & _ & -> & Hr)].
  - repeat split; try done. intros s Hs. exists s. by repeat split.
  - simpl. split; [done|]. split; [|split].
    + intros i Hi. by rewrite lookup_insert_ne.
    + intros s0 Hs0. assert (s0 = s) as -> by congruence.
      exists (restated s new now). rewrite lookup_insert_eq. by repeat split.
    + by destruct Hr as [-> | ->].
Qed.

(** X11. Of two successive status updates of a session by authorized
    callers, only the second one shows: the store is the one that the
    second update alone would have left. *)
Theorem last_status_update_wins c1 c2 t1 t2 sid a b st s :
  sessions st !! sid = Some s ->
  authorized st c1 s ->
  authorized st c2 s ->
  snd (run (updateSessionStatus c2 t2 sid (Some (Session.Status_name b))) None
         (snd (run (updateSessionStatus c1 t1 sid (Some (Session.Status_name a)))
                   None st)))
  = snd (run (updateSessionStatus c2 t2 sid (Some (Session.Status_name b))) None st).
Proof.
  intros Hs H1 H2.
  rewrite (status_reliable_done c1 t1 sid a st s Hs (authorized_mayUpdate _ _ _ H1)).
  rewrite (status_reliable_done c2 t2 sid b st s Hs (authorized_mayUpdate _ _ _ H2)).
  simpl.
  rewrite (status_reliable_done c2 t2 sid b _ (restated s a t1)).
  - simpl. unfold with_sessions; simpl. by rewrite insert_insert_eq.
  - apply lookup_insert_eq.
  - apply (authorized_mayUpdate st c2 s H2).
Qed.

Lemma last_status_update_wins_witness :
  Session.status <$>
    sessions
      (snd (run (updateSessionStatus Scenario.admin 6 0 (Some "confirmed")) None
              (snd (run (updateSessionStatus Scenario.customer 5 0 (Some "cancelled"))
                        None Scenario.oneBooked)))) !! 0%N
  = Some Session.confirmed.
Proof.
  change (Some "confirmed") with (Some (Session.Status_name Session.confirmed)).
  change (Some "cancelled") with (Some (Session.Status_name Session.cancelled)).
  rewrite (last_status_update_wins Scenario.customer Scenario.admin 5 6 0
             Session.cancelled Session.confirmed Scenario.oneBooked
             (Scenario.session Scenario.ten 60 Session.pending Session.no_rating)).
  - vm_compute. reflexivity.
  - reflexivity.
  - left. reflexivity.
  - right; left. reflexivity.
Defined.

Lemma status_route_frame_witness :
  artists (snd (run (updateSessionStatus Scenario.customer 5 0 (Some "cancelled"))
                    (Some 3%nat) Scenario.oneBooked))
  = artists Scenario.oneBooked.
Proof.
  apply (status_route_frame Scenario.customer 5 0 (Some "cancelled") (Some 3%nat)
           Scenario.oneBooked
           (fst (run (updateSessionStatus Scenario.customer 5 0 (Some "cancelled"))
                     (Some 3%nat) Scenario.oneBooked))).
  apply surjective_pairing.
Defined.

(** ** Ratings *)

Lemma select_insert_delete q (m : gmap N Session.t) i x :
  select q (<[i := x]> m)
  ≡ₚ (if matches q x then [(i, x)] else []) ++ select q (delete i m).
Proof.
  unfold select.
  rewrite <- (insert_delete_eq m), (map_to_list_insert _ _ _ (lookup_delete_eq m i)).
  rewrite filter_cons. simpl. destruct (matches q x); by case_decide.
Qed.

Lemma select_delete q (m : gmap N Session.t) i s :
  m !! i = Some s ->
  select q m ≡ₚ (if matches q s then [(i, s)] else []) ++ select q (delete i m).
Proof.
  intros Hi. rewrite <- (insert_id m i s Hi) at 1. apply select_insert_delete.
Qed.

Lemma set_ratings_again a x n a' :
  Artist.set_ratings a x n = Some a' -> Artist.set_ratings a' x n = Some a'.
Proof.
  unfold Artist.set_ratings.
  destruct (Session.inRange 0 5 x) as [q|]; simpl; [|done]. by intros [= <-].
Qed.

Lemma set_ratings_sameProfile a x n a' :
  Artist.set_ratings a x n = Some a' -> sameProfile a a'.
Proof.
  unfold Artist.set_ratings.
  destruct (Session.inRange 0 5 x) as [q|]; simpl; [|done]. by intros [= <-].
Qed.

(** The rating of a completed session by its customer, with a score in
    range, on a store that is sound and does not fail. *)
Lemma rate_reliable_success caller now sid q rv st s :
  integrity st ->
  sessions st !! sid = Some s ->
  Session.status s = Session.completed ->
  Session.user s = id caller ->
  scoreInRange q ->
  ∃ a',
    run (rateSession caller now sid {| score := Js.Num (Js.Fin q); review := rv |})
        None st
    = (Rated sid (rated_doc s (Some q) rv now),
       {| artists := <[Session.artist s := a']> (artists st);
          sessions := <[sid := rated_doc s (Some q) rv now]> (sessions st) |}).
Proof.
  intros Hint Hs Hc Hu Hq.
  destruct (Hint sid s Hs) as [[a Ha] _].
  destruct (rated_after_write st sid s q rv now Hint Hs Hq) as [Hne Hall].
  destruct (set_ratings_in_range a _ Hne Hall) as [a' Ha'].
  exists a'.
  apply (rate_reliable_done caller now sid
           {| score := Js.Num (Js.Fin q); review := rv |} st s (Some q) a a');
    simpl; eauto using outOfRange_inside, validate_score_inside.
Qed.

(** X12. Whatever a call of the rating route is answered and however the
    store fails, it writes at most the [rating] and [updatedAt] of the one
    session it names and the aggregate of one profile: every other session
    is left as it was, the session keeps its customer, artist, schedule,
    price, payment status and status, no profile is created or deleted, and
    every profile keeps its user, session rate and [isActive]. *)
Theorem rating_route_frame caller now sid body f st r st' :
  run (rateSession caller now sid body) f st = (r, st') ->
  (∀ i, i ≠ sid -> sessions st' !! i = sessions st !! i)
  ∧ (∀ s, sessions st !! sid = Some s ->
          ∃ s', sessions st' !! sid = Some s'
                ∧ sameBooking s s'
                ∧ Session.status s' = Session.status s)
  ∧ (∀ a, artists st !! a = None -> artists st' !! a = None)
  ∧ (∀ a p, artists st !! a = Some p ->
            ∃ p', artists st' !! a = Some p' ∧ sameProfile p p').
Proof.
  intros Hrun. apply rateSession_result in Hrun.
  assert (Hsame : ∀ (st0 : Store),
    (∀ s, sessions st0 !! sid = Some s ->
          ∃ s', sessions st0 !! sid = Some s' ∧ sameBooking s s'
                ∧ Session.status s' = Session.status s)
    ∧ (∀ a p, artists st0 !! a = Some p ->
              ∃ p', artists st0 !! a = Some p' ∧ sameProfile p p')).
  { intros st0. split; [intros s0 Hs0; exists s0|intros a p Hp; exists p];
      by repeat split. }
  destruct Hrun as [| | | | |s q _ Hs _ _ _|s q a a' _ Hs _ _ _ Ha Ha'];
    try (destruct (Hsame st) as [Hsessions Hartists];
         split; [done|split; [exact Hsessions|split; [done|exact Hartists]]]).
  - simpl. split; [|split; [|split]].
    + intros i Hi. by rewrite lookup_insert_ne.
    + intros s0 Hs0. assert (s0 = s) as -> by congruence.
      eexists. rewrite lookup_insert_eq. by repeat split.
    + done.
    + intros a p Hp. exists p. by repeat split.
  - simpl. split; [|split; [|split]].
    + intros i Hi. by rewrite lookup_insert_ne.
    + intros s0 Hs0. assert (s0 = s) as -> by congruence.
      eexists. rewrite lookup_insert_eq. by repeat split.
    + intros b Hb. rewrite lookup_insert_ne; [done|congruence].
    + intros b p Hp. rewrite lookup_insert. case_decide as Hab.
      * subst b. assert (p = a) as -> by congruence.
        exists a'. split; [done|]. by eapply set_ratings_sameProfile.
      * exists p. by repeat split.
Qed.

Lemma rating_route_frame_witness :
  sessions (snd (run (rateSession Scenario.customer 5 0
                        {| score := Js.lit 4; review := None |})
                     None Scenario.twoCompleted)) !! 1%N
  = sessions Scenario.twoCompleted !! 1%N.
Proof.
  apply (rating_route_frame Scenario.customer 5 0
           {| score := Js.lit 4; review := None |} None Scenario.twoCompleted
           (fst (run (rateSession Scenario.customer 5 0
                        {| score := Js.lit 4; review := None |})
                     None Scenario.twoCompleted))).
  - apply surjective_pairing.
  - discriminate.
Defined.

Lemma length_select_ratedBy (m : gmap N Session.t) i s :
  length (select (ratedBy (Session.artist s)) (<[i := s]> m))
  = (counts s + length (select (ratedBy (Session.artist s)) (delete i m)))%nat.
Proof.
  rewrite select_insert_delete, matches_ratedBy, bool_decide_eq_true_2 by done.
  unfold counts. destruct (Session.score (Session.rating s)); by simplify_option_eq.
Qed.

(** X13. A successful rating counts the session once: on a store whose
    aggregates are those of the rated sessions, the rating count of the
    artist goes up by one when the session had no score and gets one, stays
    when a score is replaced, and goes down by one when the new rating
    carries no score. *)
Theorem rating_counts_session_once caller now sid body f st r st' s p :
  consistent st ->
  run (rateSession caller now sid body) f st = (r, st') ->
  code r = 200%N ->
  sessions st !! sid = Some s ->
  artists st !! Session.artist s = Some p ->
  ∃ s' p',
    sessions st' !! sid = Some s'
    ∧ artists st' !! Session.artist s = Some p'
    ∧ (Artist.ratings_count p' + counts s
       = Artist.ratings_count p + counts s')%nat.
Proof.
  intros Hcons Hrun Hok Hs Hp. apply rateSession_result in Hrun.
  destruct Hrun as [| | | | | |s0 q a a' _ Hs0 _ _ _ Ha Ha']; try discriminate Hok.
  assert (s0 = s) as -> by congruence. assert (a = p) as -> by congruence.
  exists (rated_doc s q (review body) now), a'. simpl.
  rewrite !lookup_insert_eq. split; [done|split; [done|]].
  apply set_ratings_Some in Ha' as (_ & -> & _).
  destruct (Hcons _ _ Hp) as [-> _]. unfold rated, rated_after.
  rewrite length_select_ratedBy.
  change (Session.artist (rated_doc s q (review body) now)) with (Session.artist s).
  rewrite (select_delete _ _ _ _ Hs), matches_ratedBy, bool_decide_eq_true_2 by done.
  rewrite length_app. unfold counts. simpl.
  destruct q, (Session.score (Session.rating s)); simplify_option_eq; simpl; lia.
Qed.

Lemma rating_counts_session_once_witness :
  ∃ s' p',
    sessions (snd (run (rateSession Scenario.customer 5 0
                          {| score := Js.lit 5; review := None |})
                       None Scenario.oneRated)) !! 0%N = Some s'
    ∧ artists (snd (run (rateSession Scenario.customer 5 0
                           {| score := Js.lit 5; review := None |})
                        None Scenario.oneRated))
      !! Session.artist
           (Scenario.session Scenario.ten 60 Session.completed Scenario.four)
      = Some p'
    ∧ (Artist.ratings_count p'
       + counts (Scenario.session Scenario.ten 60 Session.completed Scenario.four)
       = Artist.ratings_count
           {| Artist.user := 7; Artist.sessionRate := Q2Qc (inject_Z 500);
              Artist.ratings_average := Q2Qc (inject_Z 4);
              Artist.ratings_count := 1; Artist.isActive := true |}
         + counts s')%nat.
Proof.
  apply (rating_counts_session_once Scenario.customer 5 0
           {| score := Js.lit 5; review := None |} None Scenario.oneRated
           (fst (run (rateSession Scenario.customer 5 0
                        {| score := Js.lit 5; review := None |})
                     None Scenario.oneRated))).
  - apply in_step_consistent. intros a doc Ha.
    unfold Scenario.oneRated in Ha. cbn [artists] in Ha.
    apply lookup_singleton_Some in Ha as [<- <-].
    vm_compute. f_equal. f_equal. apply Qc_is_canon. reflexivity.
  - apply surjective_pairing.
  - vm_compute. reflexivity.
  - reflexivity.
  - reflexivity.
Defined.

(** X14. A successful rating sent once more at the same instant, to a store
    that does not fail, gets the same reply and leaves the store as the
    first call left it. *)
Theorem repeated_rating_changes_nothing caller now sid body f st r st' :
  run (rateSession caller now sid body) f st = (r, st') ->
  code r = 200%N ->
  run (rateSession caller now sid body) None st' = (r, st').
Proof.
  intros Hrun Hok. apply rateSession_result in Hrun.
  destruct Hrun as [| | | | | |s q a a' Hg Hs Hu Hc Hv Ha Ha']; try discriminate Hok.
  set (s1 := rated_doc s q (review body) now) in *.
  set (st1 := {| artists := <[Session.artist s := a']> (artists st);
                 sessions := <[sid := s1]> (sessions st) |}).
  assert (Hafter : rated_after st1 sid (rated_doc s1 q (review body) now)
                   = rated_after st sid s1).
  { unfold rated_after, st1. simpl. by rewrite insert_insert_eq. }
  rewrite (rate_reliable_done caller now sid body st1 s1 q a' a'); try done.
  - unfold st1. simpl. rewrite !insert_insert_eq. reflexivity.
  - unfold st1. simpl. apply lookup_insert_eq.
  - unfold st1. simpl. apply lookup_insert_eq.
  - rewrite Hafter. by eapply set_ratings_again.
Qed.

Lemma repeated_rating_changes_nothing_witness :
  run (rateSession Scenario.customer 5 0 {| score := Js.lit 4; review := None |})
      None
      (snd (run (rateSession Scenario.customer 5 0
                   {| score := Js.lit 4; review := None |})
                None Scenario.twoCompleted))
  = (fst (run (rateSession Scenario.customer 5 0
                 {| score := Js.lit 4; review := None |})
              None Scenario.twoCompleted),
     snd (run (rateSession Scenario.customer 5 0
                 {| score := Js.lit 4; review := None |})
              None Scenario.twoCompleted)).
Proof.
  apply (repeated_rating_changes_nothing Scenario.customer 5 0
           {| score := Js.lit 4; review := None |} None Scenario.twoCompleted).
  - apply surjective_pairing.
  - vm_compute. reflexivity.
Defined.





(** X16. A score that passes the range guard and is no number for the
    schema (a text that is not numeric, an object) is answered 500 by the
    rating route, also for the customer of a completed session, and nothing
    is written, however the store behaves. *)
Theorem uncastable_score_is_server_error caller now sid body f st s :
  outOfRange (score body) = false ->
  Session.validate_score (score body) = None ->
  sessions st !! sid = Some s ->
  Session.user s = id caller ->
  Session.status s = Session.completed ->
  run (rateSession caller now sid body) f st = (ServerError, st).
Proof.
  intros Hg Hv Hs Hu Hc.
  destruct (run (rateSession caller now sid body) f st) as [r st'] eqn:Hrun.
  apply rateSession_result in Hrun.
  destruct Hrun; try congruence.
Qed.

Lemma uncastable_score_is_server_error_witness :
  run (rateSession Scenario.customer 5 0
         {| score := Js.Str "five"; review := None |}) None Scenario.twoCompleted
  = (ServerError, Scenario.twoCompleted)
  ∧ run (rateSession Scenario.customer 5 0
           {| score := Js.Obj; review := None |}) None Scenario.twoCompleted
    = (ServerError, Scenario.twoCompleted).
Proof.
  split.
  - apply (uncastable_score_is_server_error Scenario.customer 5 0
             {| score := Js.Str "five"; review := None |} None Scenario.twoCompleted
             (Scenario.session Scenario.ten 60 Session.completed Session.no_rating));
      vm_compute; reflexivity.
  - apply (uncastable_score_is_server_error Scenario.customer 5 0
             {| score := Js.Obj; review := None |} None Scenario.twoCompleted
             (Scenario.session Scenario.ten 60 Session.completed Session.no_rating));
      vm_compute; reflexivity.
Defined.

(** X17. The customer of a session needs nobody else to rate it: on a sound
    store that does not fail, the customer can set the status of the own
    session to completed, whatever it was, and the rating that follows, with
    a score from 1 to 5, succeeds. *)
Theorem customer_can_complete_and_rate caller t1 t2 sid q rv st s :
  integrity st ->
  sessions st !! sid = Some s ->
  Session.user s = id caller ->
  scoreInRange q ->
  ∃ st1 r st2,
    run (updateSessionStatus caller t1 sid (Some "completed")) None st
    = (StatusUpdated sid (restated s Session.completed t1), st1)
    ∧ run (rateSession caller t2 sid
             {| score := Js.Num (Js.Fin q); review := rv |}) None st1
      = (r, st2)
    ∧ code r = 200%N.
Proof.
  intros Hint Hs Hu Hq.
  assert (mayUpdate caller (profileOf st (id caller)) s = true) as Hmay.
  { unfold mayUpdate. by rewrite (bool_decide_eq_true_2 _ Hu). }
  pose proof (status_reliable_done caller t1 sid Session.completed st s Hs Hmay)
    as Hrun.
  change (Session.Status_name Session.completed) with "completed" in Hrun.
  assert (integrity (with_sessions st
            (<[sid := restated s Session.completed t1]> (sessions st)))) as Hint1.
  { eapply updateSessionStatus_integrity; [exact Hrun|exact Hint]. }
  destruct (rate_reliable_success caller t2 sid q rv _
              (restated s Session.completed t1) Hint1) as [a' Hrate];
    [apply lookup_insert_eq|done|done|done|].
  eexists _, _, _. split; [exact Hrun|]. split; [exact Hrate|reflexivity].
Qed.

Lemma customer_can_complete_and_rate_witness :
  ∃ st1 r st2,
    run (updateSessionStatus Scenario.customer 5 0 (Some "completed")) None
        Scenario.oneBooked
    = (StatusUpdated 0
         (restated (Scenario.session Scenario.ten 60 Session.pending Session.no_rating)
            Session.completed 5), st1)
    ∧ run (rateSession Scenario.customer 6 0
             {| score := Js.Num (Js.Fin (tenths 50)); review := None |}) None st1
      = (r, st2)
    ∧ code r = 200%N.
Proof.
  apply (customer_can_complete_and_rate Scenario.customer 5 6 0 (tenths 50) None
           Scenario.oneBooked).
  - intros i d Hd. unfold Scenario.oneBooked in Hd. cbn [sessions] in Hd.
    apply lookup_singleton_Some in Hd as [<- <-]. split; [by eexists|done].
  - reflexivity.
  - reflexivity.
  - split; vm_compute; discriminate.
Defined.

(** ** Listing *)

(** The filter of the listing on a store that does not fail, and the
    sessions it matches. *)
Lemma listQuery_reliable caller now rq st :
  ∃ q, listQuery caller now rq (st, None) = (Next q, (st, None))
       ∧ ∀ s, matches q s = true ↔ visible st caller now rq s.
Proof.
  unfold listQuery, visible, inScope.
  destruct (role caller) eqn:Hrole; reliable;
    [|destruct (profileOf st (id caller)) as [[aid a]|]; simpl|];
    destruct (l_status rq) as [[|c v]|]; simpl;
    (destruct (bool_decide (l_upcoming rq = Some "true")) eqn:Hup;
     [apply bool_decide_eq_true in Hup|apply bool_decide_eq_false in Hup]); simpl;
    (eexists; split; [reflexivity|]);
    intros s; unfold matches, holds; simpl;
    rewrite ?andb_true_r, ?andb_true_iff, ?bool_decide_eq_true,
      ?Z.leb_le, ?list_elem_of_singleton;
    (split; [intros; repeat split; intros; try tauto; try discriminate;
             try (f_equal; symmetry; tauto)
            |intros (? & Hs & Hd); repeat split; try tauto;
             try (by injection (Hs eq_refl))]).
Qed.

Lemma getSessions_reliable caller now rq st q :
  listQuery caller now rq (st, None) = (Next q, (st, None)) ->
  run (getSessions caller now rq) None st
  = (Listed rq (select q (sessions st)), st).
Proof.
  intros Hq. unfold getSessions, run. unfold bind at 1. rewrite Hq. by reliable.
Qed.

(** X18. What the listing shows. On a store that does not fail the reply
    is 200 with a page of the sessions, each once, that are in the scope of
    the caller (for the role artist those of the caller's profile, or all
    without a profile; for any other role, admin included, those the caller
    booked), have the status asked for when one is, and are not before the
    time of the call when [upcoming] is ['true']; [total] is their number.
    The store is not changed. *)
Theorem listing_shows_visible_sessions caller now rq st :
  ∃ found,
    run (getSessions caller now rq) None st = (Listed rq found, st)
    ∧ NoDup found
    ∧ ∀ i s, (i, s) ∈ found
             ↔ sessions st !! i = Some s ∧ visible st caller now rq s.
Proof.
  destruct (listQuery_reliable caller now rq st) as (q & Hq & Hvis).
  exists (select q (sessions st)). split; [by apply getSessions_reliable|]. split.
  - unfold select. apply list.NoDup_filter, NoDup_map_to_list.
  - intros i s. rewrite select_elem. by rewrite Hvis.
Qed.

(** X19. A status filter that is none of the five status names is not
    refused: the listing answers 200 with an empty page, the total 0 and no
    pages. *)
Theorem unknown_status_lists_nothing caller now rq st :
  truthy (l_status rq) = true ->
  (∀ new, l_status rq ≠ Some (Session.Status_name new)) ->
  run (getSessions caller now rq) None st = (Listed rq [], st)
  ∧ data (Listed rq [])
    = Page 0 0 0 (Pos.to_nat (default 1%positive (l_page rq))) [].
Proof.
  intros Hst Hnew.
  destruct (listQuery_reliable caller now rq st) as (q & Hq & Hvis).
  rewrite (getSessions_reliable _ _ _ _ _ Hq).
  assert (select q (sessions st) = []) as ->.
  { destruct (select q (sessions st)) as [|[i s] l] eqn:Hl; [done|].
    assert ((i, s) ∈ select q (sessions st)) as Hin by (rewrite Hl; left).
    apply select_elem in Hin as [_ Hin]. apply Hvis in Hin as (_ & Hin & _).
    by destruct (Hnew _ (Hin Hst)). }
  split; [done|].
  assert (pageOf rq [] = []) as Hpage.
  { unfold pageOf. change (merge_sort byDate []) with (@nil (ObjectId * Session.t)).
    by rewrite drop_nil, take_nil. }
  unfold Listed, ceilDiv. rewrite Hpage. simpl. f_equal.
  apply Nat.div_small. lia.
Qed.

Lemma unknown_status_lists_nothing_witness :
  run (getSessions Scenario.customer 0
         {| l_status := Some "done"; l_upcoming := None;
            l_page := None; l_limit := None |}) None Scenario.twoCompleted
  = (Listed {| l_status := Some "done"; l_upcoming := None;
               l_page := None; l_limit := None |} [], Scenario.twoCompleted).
Proof.
  apply (unknown_status_lists_nothing Scenario.customer 0
           {| l_status := Some "done"; l_upcoming := None;
              l_page := None; l_limit := None |} Scenario.twoCompleted).
  - reflexivity.
  - intros []; discriminate.
Defined.

#[local] Instance byDate_transitive : Transitive byDate.
Proof. unfold byDate. intros a b c. lia. Qed.

#[local] Instance byDate_total : Total byDate.
Proof. unfold byDate. intros a b. lia. Qed.

Lemma ceilDiv_le (total limit page : nat) :
  (0 < limit)%nat ->
  (page ≤ ceilDiv total limit)%nat ↔ (page = 0 ∨ (page - 1) * limit < total)%nat.
Proof.
  intros Hl. unfold ceilDiv. split.
  - intros Hp. destruct page as [|p]; [by left|right].
    replace (S p - 1)%nat with p by lia.
    pose proof (Nat.Div0.mul_div_le (total + limit - 1) limit). nia.
  - intros [-> | Hp]; [lia|].
    apply Nat.div_le_lower_bound; [lia|]. nia.
Qed.

(** X20. The pages of the listing. A page is in date order, holds sessions
    of the matches only and at most [limit] of them; [totalPages] is the
    number of the pages that are not empty, and every page before the last
    is full. *)
Theorem pages_are_sorted_slices rq found :
  let page := Pos.to_nat (default 1%positive (l_page rq)) in
  let limit := Pos.to_nat (default 10%positive (l_limit rq)) in
  let totalPages := ceilDiv (length found) limit in
  StronglySorted byDate (pageOf rq found)
  ∧ (∀ d, d ∈ pageOf rq found -> d ∈ found)
  ∧ (length (pageOf rq found) ≤ limit)%nat
  ∧ (pageOf rq found ≠ [] ↔ (page ≤ totalPages)%nat)
  ∧ ((page < totalPages)%nat -> length (pageOf rq found) = limit).
Proof.
  intros page limit totalPages. unfold pageOf. fold page limit.
  assert (0 < limit)%nat as Hlimit by (unfold limit; lia).
  assert (0 < page)%nat as Hpage by (unfold page; lia).
  set (sorted := merge_sort byDate found).
  assert (length sorted = length found) as Hlen
    by (unfold sorted; by rewrite merge_sort_Permutation).
  assert (length (take limit (drop ((page - 1) * limit) sorted))
          = min limit (length found - (page - 1) * limit)) as Hpagelen
    by (by rewrite length_take, length_drop, Hlen).
  split; [|split; [|split; [|split]]].
  - pose proof (StronglySorted_merge_sort byDate found) as Hs. fold sorted in Hs.
    rewrite <- (take_drop ((page - 1) * limit) sorted) in Hs.
    apply StronglySorted_app_1_r in Hs.
    rewrite <- (take_drop limit (drop _ sorted)) in Hs.
    by apply StronglySorted_app_1_l in Hs.
  - intros d Hd. apply subseteq_take, subseteq_drop in Hd.
    unfold sorted in Hd. by rewrite merge_sort_Permutation in Hd.
  - lia.
  - rewrite <- length_zero_iff_nil, Hpagelen.
    unfold totalPages. rewrite (ceilDiv_le _ _ _ Hlimit). lia.
  - intros Hlt. rewrite Hpagelen.
    assert (page + 1 ≤ totalPages)%nat as Hnext by lia.
    unfold totalPages in Hnext. apply (ceilDiv_le _ _ _ Hlimit) in Hnext.
    replace (page + 1 - 1)%nat with (S (page - 1)) in Hnext by lia.
    lia.
Qed.



(** ** Reading one session *)

Lemma getSession_store users caller sid f st r st' :
  run (getSession users caller sid) f st = (r, st') -> st' = st.
Proof.
  unfold run, getSession. unfold bind at 1.
  destruct (Session_findById_cases sid st f) as [-> | [f0 ->]]; simpl.
  { by intros [= <- <-]. }
  unfold bind at 1, get; simpl.
  destruct (sessions st !! sid) as [s|]; simpl; [|by intros [= <- <-]].
  unfold bind at 1.
  destruct (Artist_findOne_cases (id caller) st f0) as [-> | [f1 ->]]; simpl.
  { by intros [= <- <-]. }
  destruct (bool_decide (Session.user s ∈ users)); simpl; [|by intros [= <- <-]].
  destruct (profileOf st (id caller)) as [[aid a]|]; simpl.
  - destruct (artists st !! Session.artist s); simpl; [|by intros [= <- <-]].
    by destruct (bool_decide (Session.user s = id caller)),
      (bool_decide (Session.artist s = aid)),
      (bool_decide (role caller = role_admin)); intros [= <- <-].
  - by destruct (bool_decide (Session.user s = id caller)),
      (bool_decide (role caller = role_admin)); intros [= <- <-].
Qed.

(** X22. Who may read a session is who may change its status. For a
    stored session whose customer and artist exist, on a store that does
    not fail, either the detail route shows the session to the caller and
    the status route lets the same caller set any of the five statuses, or
    the two routes answer 403. *)
Theorem viewers_are_updaters users caller now sid new st s :
  sessions st !! sid = Some s ->
  Session.user s ∈ users ->
  is_Some (artists st !! Session.artist s) ->
  (run (getSession users caller sid) None st = (Viewed sid s, st)
   ∧ fst (run (updateSessionStatus caller now sid
                 (Some (Session.Status_name new))) None st)
     = StatusUpdated sid (restated s new now))
  ∨ (run (getSession users caller sid) None st = (ViewForbidden, st)
     ∧ run (updateSessionStatus caller now sid
              (Some (Session.Status_name new))) None st
       = (UpdateForbidden, st)).
Proof.
  intros Hs Hu [a Ha].
  assert (Hview : run (getSession users caller sid) None st
                  = (if mayUpdate caller (profileOf st (id caller)) s
                     then Viewed sid s else ViewForbidden, st)).
  { unfold getSession, mayUpdate. reliable. rewrite Hs. simpl.
    rewrite (bool_decide_eq_true_2 _ Hu). simpl.
    destruct (profileOf st (id caller)) as [[aid p]|]; simpl.
    - rewrite Ha. simpl.
      by destruct (bool_decide (Session.user s = id caller)),
        (bool_decide (Session.artist s = aid)),
        (bool_decide (role caller = role_admin)).
    - by destruct (bool_decide (Session.user s = id caller)),
        (bool_decide (role caller = role_admin)). }
  rewrite Hview.
  destruct (mayUpdate caller (profileOf st (id caller)) s) eqn:Hmay; [left|right].
  - split; [done|]. by rewrite (status_reliable_done _ _ _ _ _ _ Hs Hmay).
  - split; [done|]. unfold updateSessionStatus.
    rewrite (bool_decide_eq_true_2 _ (Status_name_valid new)).
    reliable. rewrite Hs. simpl. by rewrite Hmay.
Qed.

Lemma viewers_are_updaters_witness :
  (run (getSession Scenario.accounts Scenario.owner 0) None Scenario.oneBooked
   = (Viewed 0 (Scenario.session Scenario.ten 60 Session.pending Session.no_rating),
      Scenario.oneBooked)
   ∧ fst (run (updateSessionStatus Scenario.owner 5 0
                 (Some (Session.Status_name Session.completed))) None
              Scenario.oneBooked)
     = StatusUpdated 0
         (restated (Scenario.session Scenario.ten 60 Session.pending Session.no_rating)
            Session.completed 5))
  ∨ (run (getSession Scenario.accounts Scenario.owner 0) None Scenario.oneBooked
     = (ViewForbidden, Scenario.oneBooked)
     ∧ run (updateSessionStatus Scenario.owner 5 0
              (Some (Session.Status_name Session.completed))) None
           Scenario.oneBooked
       = (UpdateForbidden, Scenario.oneBooked)).
Proof.
  apply (viewers_are_updaters Scenario.accounts Scenario.owner 5 0 Session.completed
           Scenario.oneBooked).
  - reflexivity.
  - vm_compute. reflexivity.
  - by eexists.
Defined.

(** X23. A session whose customer's account is gone cannot be read any
    more: the detail route answers 500 to every caller, the admin and the
    artist of the session included, whatever the store does. *)
Theorem deleted_customer_hides_session users caller sid f st s :
  sessions st !! sid = Some s ->
  Session.user s ∉ users ->
  run (getSession users caller sid) f st = (ServerError, st).
Proof.
  intros Hs Hu. unfold run, getSession. unfold bind at 1.
  destruct (Session_findById_cases sid st f) as [-> | [f0 ->]]; simpl; [done|].
  unfold bind at 1, get; simpl.
  rewrite Hs. simpl. unfold bind at 1.
  destruct (Artist_findOne_cases (id caller) st f0) as [-> | [f1 ->]]; simpl; [done|].
  by rewrite (bool_decide_eq_false_2 _ Hu).
Qed.

Lemma deleted_customer_hides_session_witness :
  run (getSession Scenario.withoutCustomer Scenario.admin 0) None Scenario.oneBooked
  = (ServerError, Scenario.oneBooked).
Proof.
  apply (deleted_customer_hides_session Scenario.withoutCustomer Scenario.admin 0
           None Scenario.oneBooked
           (Scenario.session Scenario.ten 60 Session.pending Session.no_rating)).
  - reflexivity.
  - vm_compute. intros H. apply (bool_decide_pack _) in H. vm_compute in H. done.
Defined.

(** X24. The two reading routes never write: whatever they answer and
    however the store fails, the listing and the detail route leave the
    store as it was. *)
Theorem reading_routes_never_write f st :
  (∀ caller now rq, snd (run (getSessions caller now rq) f st) = st)
  ∧ (∀ users caller sid, snd (run (getSession users caller sid) f st) = st).
Proof.
  split; intros.
  - eapply getSessions_store, surjective_pairing.
  - eapply getSession_store, surjective_pairing.
Qed.

(** ** Sequences of requests *)

Lemma integrity_kept_witness :
  integrity
    (snd (run (rateSession Scenario.customer 5 0
                 {| score := Js.lit 4; review := None |}) (Some 2%nat)
              (snd (run (bookSession Scenario.customer 0
                           (Scenario.booking Scenario.ten 60)) None
                        Scenario.empty)))).
Proof.
  apply (integrity_kept Scenario.empty).
  - eapply rtc_l; [eapply attempt_book, surjective_pairing|].
    eapply rtc_once, attempt_rate, surjective_pairing.
  - intros i d Hd. unfold Scenario.empty in Hd. cbn [sessions] in Hd.
    by rewrite lookup_empty in Hd.
Defined.


Lemma sameBooking_refl s : sameBooking s s.
Proof. by repeat split. Qed.

Lemma sameBooking_trans s1 s2 s3 :
  sameBooking s1 s2 -> sameBooking s2 s3 -> sameBooking s1 s3.
Proof. unfold sameBooking. intuition congruence. Qed.

Lemma sameProfile_trans p1 p2 p3 :
  sameProfile p1 p2 -> sameProfile p2 p3 -> sameProfile p1 p3.
Proof. unfold sameProfile. intuition congruence. Qed.

(** What one request can do to the bookings and the profiles. *)
Lemma attempted_keeps st st' :
  attempted st st' ->
  (∀ i s, sessions st !! i = Some s ->
          ∃ s', sessions st' !! i = Some s' ∧ sameBooking s s')
  ∧ dom (artists st') = dom (artists st)
  ∧ (∀ a p p', artists st !! a = Some p -> artists st' !! a = Some p' ->
               sameProfile p p').
Proof.
  assert (Hsame : ∀ st0 : Store,
    (∀ i s, sessions st0 !! i = Some s ->
            ∃ s', sessions st0 !! i = Some s' ∧ sameBooking s s')
    ∧ dom (artists st0) = dom (artists st0)
    ∧ (∀ a p p', artists st0 !! a = Some p -> artists st0 !! a = Some p' ->
                 sameProfile p p')).
  { intros st0. split; [|split; [done|]].
    - intros i s Hs. exists s. split; [done|apply sameBooking_refl].
    - intros a p p' Hp Hp'. assert (p' = p) as -> by congruence. by repeat split. }
  assert (Hwrite : ∀ (st0 : Store) i d,
    (∀ s, sessions st0 !! i = Some s -> sameBooking s d) ->
    (∀ j s, sessions st0 !! j = Some s ->
            ∃ s', <[i := d]> (sessions st0) !! j = Some s' ∧ sameBooking s s')).
  { intros st0 i d Hd j s Hs. rewrite lookup_insert. case_decide as Hij.
    - subst j. exists d. split; [done|]. by apply Hd.
    - exists s. split; [done|apply sameBooking_refl]. }
  intros [caller now rq f st0 r st1 Hrun|caller now body f st0 r st1 Hrun
         |caller now sid v f st0 r st1 Hrun|caller now sid body f st0 r st1 Hrun].
  - apply getSessions_store in Hrun as ->. apply Hsame.
  - apply bookSession_result in Hrun.
    destruct Hrun as [| | |w doc _ _ _ _|w doc _ _ _ _]; try apply Hsame;
      (split; [|split; [done|exact (proj2 (proj2 (Hsame _)))]]); simpl;
      apply Hwrite; intros s Hs;
      (pose proof (is_fresh (dom (sessions st0))) as Hfresh;
       by apply not_elem_of_dom in Hfresh; rewrite Hfresh in Hs).
  - apply updateSessionStatus_result in Hrun
      as [[-> _] | (s & new & Hs & _ & _ & -> & _)]; [apply Hsame|].
    split; [|split; [done|exact (proj2 (proj2 (Hsame _)))]]. simpl.
    apply Hwrite. intros s0 Hs0. assert (s0 = s) as -> by congruence.
    by repeat split.
  - apply rateSession_result in Hrun.
    destruct Hrun as [| | | | |s q _ Hs _ _ _|s q a a' _ Hs _ _ _ Ha Ha'];
      try apply Hsame.
    + split; [|split; [done|exact (proj2 (proj2 (Hsame _)))]]. simpl.
      apply Hwrite. intros s0 Hs0. assert (s0 = s) as -> by congruence.
      by repeat split.
    + split; [|split]; simpl.
      * apply Hwrite. intros s0 Hs0. assert (s0 = s) as -> by congruence.
        by repeat split.
      * apply dom_insert_lookup_L. by eexists.
      * intros b p p' Hp. rewrite lookup_insert. case_decide as Hab.
        -- subst b. intros [= <-]. assert (p = a) as -> by congruence.
           by eapply set_ratings_sameProfile.
        -- intros Hp'. assert (p' = p) as -> by congruence. by repeat split.
Qed.

(** X27. What the sessions router never does, along any sequence of
    requests and whatever fails: no session is deleted, and a session
    keeps the customer, the artist, the type, the title, the schedule, the
    price and the payment status it was booked with (a payment is never
    recorded); no profile is created or deleted, and a profile keeps its
    user, its session rate and [isActive]. *)
Theorem bookings_outlive_requests st st' :
  rtc attempted st st' ->
  (∀ i s, sessions st !! i = Some s ->
          ∃ s', sessions st' !! i = Some s' ∧ sameBooking s s')
  ∧ dom (artists st') = dom (artists st)
  ∧ (∀ a p p', artists st !! a = Some p -> artists st' !! a = Some p' ->
               sameProfile p p').
Proof.
  induction 1 as [st|st st1 st2 Hstep _ (IHs & IHd & IHp)].
  - split; [|split; [done|]].
    + intros i s Hs. exists s. split; [done|apply sameBooking_refl].
    + intros a p p' Hp Hp'. assert (p' = p) as -> by congruence. by repeat split.
  - apply attempted_keeps in Hstep as (Hs & Hd & Hp). split; [|split].
    + intros i s Hi. destruct (Hs i s Hi) as (s1 & Hi1 & Hb1).
      destruct (IHs i s1 Hi1) as (s2 & Hi2 & Hb2).
      exists s2. split; [done|]. by eapply sameBooking_trans.
    + by rewrite IHd.
    + intros a p p2 Ha Ha2.
      assert (is_Some (artists st1 !! a)) as [p1 Ha1].
      { apply elem_of_dom. rewrite Hd. apply elem_of_dom. by eexists. }
      eapply sameProfile_trans; [by eapply Hp|by eapply IHp].
Qed.

Lemma bookings_outlive_requests_witness :
  dom (artists
         (snd (run (rateSession Scenario.customer 5 0
                      {| score := Js.lit 4; review := None |}) None
                   (snd (run (updateSessionStatus Scenario.admin 4 0
                                (Some "completed")) None
                             Scenario.oneBooked)))))
  = dom (artists Scenario.oneBooked).
Proof.
  apply (bookings_outlive_requests Scenario.oneBooked).
  eapply rtc_l; [eapply attempt_status, surjective_pairing|].
  eapply rtc_once, attempt_rate, surjective_pairing.
Defined.
